(** * quickwrite: the markdown editor's text transformation engine

    A shallow embedding of the formatting transforms of
    [components/editor/MarkdownEditor.tsx] (wrapSelection, prefixLines,
    headingTransform, codeTransform, dividerTransform, the formattingActions
    registry and runAction), together with the properties the specification
    states about them.

    JavaScript strings are sequences of UTF-16 code units: a string is a list
    of code units ([N]), its [length] is the number of units, and offsets are
    integers ([Z]) as the [number]s handed to [String.prototype.slice]. *)

From Stdlib Require Import List ZArith Lia Bool Ascii String.
Import ListNotations.

Local Open Scope Z_scope.

(** ** The JavaScript string primitives the transforms call *)

Module JS.

Definition jsstring := list N.

(** An ASCII literal of the source, as code units. *)
Definition lit (s : string) : jsstring :=
  List.map N_of_ascii (list_ascii_of_string s).

Definition LF : N := 10.
Definition CR : N := 13.
Definition HASH : N := 35.

Definition length (s : jsstring) : Z := Z.of_nat (List.length s).

Definition unit_eqb (a b : N) : bool := N.eqb a b.

Fixpoint eqb (s t : jsstring) : bool :=
  match s, t with
  | [], [] => true
  | a :: s', b :: t' => unit_eqb a b && eqb s' t'
  | _, _ => false
  end.

(** [slice]'s treatment of one relative index: negative counts from the
    end, and everything is clamped to [0, len]. *)
Definition relIndex (len i : Z) : Z :=
  if i <? 0 then Z.max (len + i) 0 else Z.min i len.

(** [s.slice(start, end)]. *)
Definition slice (s : jsstring) (start stop : Z) : jsstring :=
  let len := length s in
  let from := relIndex len start in
  let to := relIndex len stop in
  let span := Z.max (to - from) 0 in
  firstn (Z.to_nat span) (skipn (Z.to_nat from) s).

(** [s.slice(start)]: the end defaults to the length. *)
Definition sliceFrom (s : jsstring) (start : Z) : jsstring :=
  slice s start (length s).

(** [s.startsWith(t)] and [s.endsWith(t)]. *)
Definition startsWith (s t : jsstring) : bool :=
  eqb (firstn (List.length t) s) t.

Definition endsWith (s t : jsstring) : bool :=
  (List.length t <=? List.length s)%nat
  && eqb (skipn (List.length s - List.length t) s) t.

(** [s.includes(t)]. *)
Fixpoint includes (s t : jsstring) : bool :=
  startsWith s t
  || match s with
     | [] => false
     | _ :: s' => includes s' t
     end.

(** White space as [String.prototype.trim] and the regular expression class
    [\s] see it: WhiteSpace and LineTerminator code points. *)
Definition isWhiteSpace (c : N) : bool :=
  let z := Z.of_N c in
  ((9 <=? z) && (z <=? 13))
  || (z =? 32) || (z =? 160) || (z =? 5760)
  || ((8192 <=? z) && (z <=? 8202))
  || (z =? 8232) || (z =? 8233) || (z =? 8239) || (z =? 8287)
  || (z =? 12288) || (z =? 65279).

Fixpoint trimStart (s : jsstring) : jsstring :=
  match s with
  | [] => []
  | c :: s' => if isWhiteSpace c then trimStart s' else s
  end.

Definition trimEnd (s : jsstring) : jsstring :=
  rev (trimStart (rev s)).

Definition trim (s : jsstring) : jsstring :=
  trimEnd (trimStart s).

(** [s.repeat(n)]. *)
Fixpoint repeat (s : jsstring) (n : nat) : jsstring :=
  match n with
  | O => []
  | S n' => s ++ repeat s n'
  end.

(** [lines.join(sep)]. *)
Fixpoint join (sep : jsstring) (parts : list jsstring) : jsstring :=
  match parts with
  | [] => []
  | [p] => p
  | p :: rest => p ++ sep ++ join sep rest
  end.

(** Puts a unit in front of the first piece of a split. *)
Definition consHead (c : N) (parts : list jsstring) : list jsstring :=
  match parts with
  | [] => [[c]]
  | p :: rest => (c :: p) :: rest
  end.

(** [s.split(/\r?\n/)]: scanning from the left, a line feed, or a carriage
    return directly followed by a line feed, ends the current piece. The
    result always has at least one piece. *)
Fixpoint splitLines (s : jsstring) : list jsstring :=
  match s with
  | [] => [[]]
  | c :: rest =>
      if unit_eqb c LF then [] :: splitLines rest
      else
        match rest with
        | d :: rest' =>
            if unit_eqb c CR && unit_eqb d LF
            then [] :: splitLines rest'
            else consHead c (splitLines rest)
        | [] => consHead c (splitLines rest)
        end
  end.

(** At most [k] leading number signs removed. *)
Fixpoint dropHashes (k : nat) (s : jsstring) : jsstring :=
  match k, s with
  | S k', c :: s' => if unit_eqb c HASH then dropHashes k' s' else s
  | _, _ => s
  end.

(** [s.replace(/^#{1,6}\s*/, "")]: when the string starts with a number
    sign, the greedy match takes up to six of them and then all the white
    space that follows; otherwise nothing matches and [s] is returned. *)
Definition stripHeadingMarker (s : jsstring) : jsstring :=
  match s with
  | c :: s' =>
      if unit_eqb c HASH then trimStart (dropHashes 5 s') else s
  | [] => s
  end.

(** [a || b] on strings: the empty string is falsy. *)
Definition orElse (a b : jsstring) : jsstring :=
  match a with
  | [] => b
  | _ => a
  end.

End JS.

Import JS.

(** ** The transforms *)

Record TransformArgs := mkArgs {
  text : jsstring;
  selectionStart : Z;
  selectionEnd : Z
}.

(** The result's [selectionStart] and [selectionEnd] are [resultStart] and
    [resultEnd] here, the two records sharing one name space. *)
Record TransformResult := mkResult {
  value : jsstring;
  resultStart : Z;
  resultEnd : Z
}.

Record FormattingAction := mkAction {
  id : jsstring;
  label : jsstring;
  hint : jsstring;
  transform : TransformArgs -> TransformResult
}.

Definition wrapSelection (before after placeholder : jsstring)
    (args : TransformArgs) : TransformResult :=
  let selected := slice (text args) (selectionStart args) (selectionEnd args) in
  let hasSelection := 0 <? JS.length selected in
  let content := if hasSelection then selected else placeholder in
  let value :=
    slice (text args) 0 (selectionStart args)
      ++ before ++ content ++ after
      ++ sliceFrom (text args) (selectionEnd args) in
  let start := selectionStart args + JS.length before in
  let stop := start + JS.length content in
  mkResult value start stop.

(** The per-line function of [prefixLines]'s [map]. *)
Definition prefixLine (prefix line : jsstring) : jsstring :=
  if 0 <? JS.length (trim line) then prefix ++ line else prefix.

Definition prefixLines (prefix placeholder : jsstring)
    (args : TransformArgs) : TransformResult :=
  let before := slice (text args) 0 (selectionStart args) in
  let after := sliceFrom (text args) (selectionEnd args) in
  let selected := slice (text args) (selectionStart args) (selectionEnd args) in
  let content := if 0 <? JS.length selected then selected else placeholder in
  let lines := splitLines content in
  let transformed := join [LF] (List.map (prefixLine prefix) lines) in
  let value := before ++ transformed ++ after in
  let stop := selectionStart args + JS.length transformed in
  mkResult value stop stop.

(** [level] is the count handed to ["#".repeat]; the registry uses 2. *)
Definition headingTransform (level : nat) (args : TransformArgs)
    : TransformResult :=
  let before := slice (text args) 0 (selectionStart args) in
  let after := sliceFrom (text args) (selectionEnd args) in
  let selected := slice (text args) (selectionStart args) (selectionEnd args) in
  let content := orElse (trim (stripHeadingMarker selected)) (lit "Heading") in
  let prefix := JS.repeat (lit "#") level ++ lit " " in
  let needsLeading :=
    if (selectionStart args =? 0) || endsWith before [LF]
    then [] else [LF; LF] in
  let needsTrailing :=
    if (selectionEnd args =? JS.length (text args)) || startsWith after [LF]
    then [] else [LF; LF] in
  let insertion := needsLeading ++ prefix ++ content ++ needsTrailing in
  let value := before ++ insertion ++ after in
  let start := JS.length before + JS.length needsLeading + JS.length prefix in
  let stop := start + JS.length content in
  mkResult value start stop.

Definition codeTransform (args : TransformArgs) : TransformResult :=
  let before := slice (text args) 0 (selectionStart args) in
  let after := sliceFrom (text args) (selectionEnd args) in
  let selected := slice (text args) (selectionStart args) (selectionEnd args) in
  let content :=
    if 0 <? JS.length selected then selected else lit "code snippet" in
  let isMultiLine := includes content [LF] in
  if isMultiLine || (JS.length selected =? 0) then
    let prefix := if endsWith before [LF] then [LF] else [LF; LF] in
    let suffix := if startsWith after [LF] then [LF] else [LF; LF] in
    let block :=
      prefix ++ lit "```" ++ [LF] ++ content ++ [LF] ++ lit "```" ++ suffix in
    let value := before ++ block ++ after in
    let start := JS.length before + JS.length prefix + 4 in
    let stop := start + JS.length content in
    mkResult value start stop
  else
    let inline := lit "`" ++ content ++ lit "`" in
    let value := before ++ inline ++ after in
    let start := selectionStart args + 1 in
    let stop := start + JS.length content in
    mkResult value start stop.

Definition dividerTransform (args : TransformArgs) : TransformResult :=
  let before := slice (text args) 0 (selectionStart args) in
  let after := sliceFrom (text args) (selectionEnd args) in
  let prefix := if endsWith before [LF] then [LF] else [LF; LF] in
  let suffix := if startsWith after [LF] then [LF] else [LF; LF] in
  let insertion := prefix ++ lit "---" ++ suffix in
  let value := before ++ insertion ++ after in
  let cursor := JS.length before + JS.length insertion in
  mkResult value cursor cursor.

(** ** The registry *)

(** U+2318, the command-key sign of the shortcut hints. *)
Definition CMD : jsstring := [8984%N].

Definition formattingActions : list FormattingAction :=
  [ mkAction (lit "bold") (lit "Bold")
      (lit "Bold (" ++ CMD ++ lit "/Ctrl + B)")
      (wrapSelection (lit "**") (lit "**") (lit "bold text"));
    mkAction (lit "italic") (lit "Italic")
      (lit "Italic (" ++ CMD ++ lit "/Ctrl + I)")
      (wrapSelection (lit "_") (lit "_") (lit "emphasis"));
    mkAction (lit "heading") (lit "Heading")
      (lit "Level 2 heading (" ++ CMD ++ lit "/Ctrl + 2)")
      (headingTransform 2);
    mkAction (lit "quote") (lit "Quote")
      (lit "Blockquote")
      (prefixLines (lit "> ") (lit "Quote text"));
    mkAction (lit "code") (lit "Code")
      (lit "Inline or fenced code (" ++ CMD ++ lit "/Ctrl + E)")
      codeTransform;
    mkAction (lit "todo") (lit "Todo")
      (lit "Checklist item")
      (prefixLines (lit "- [ ] ") (lit "Task detail"));
    mkAction (lit "divider") (lit "Divider")
      (lit "Horizontal rule")
      dividerTransform ].

(** ** The editor state and the dispatch of an action

    The component keeps the draft in React state, the textarea behind a ref
    (absent before the first render) and the selection to restore after the
    next render in [nextSelection]. An action runs as one state update. *)

Record Textarea := mkTextarea {
  taSelectionStart : Z;
  taSelectionEnd : Z
}.

Record Editor := mkEditor {
  draft : jsstring;
  textareaRef : option Textarea;
  nextSelection : option (Z * Z)
}.

Definition applyAction (action : FormattingAction) (st : Editor) : Editor :=
  let fallbackPosition := JS.length (draft st) in
  let selectionStart :=
    match textareaRef st with
    | Some ta => taSelectionStart ta
    | None => fallbackPosition
    end in
  let selectionEnd :=
    match textareaRef st with
    | Some ta => taSelectionEnd ta
    | None => fallbackPosition
    end in
  let result := transform action (mkArgs (draft st) selectionStart selectionEnd) in
  mkEditor (value result) (textareaRef st)
    (Some (resultStart result, resultEnd result)).

(** [formattingActions.find((item) => item.id === id)]. *)
Definition findAction (name : jsstring) : option FormattingAction :=
  List.find (fun item => JS.eqb (id item) name) formattingActions.

Definition runAction (name : jsstring) (st : Editor) : Editor :=
  match findAction name with
  | Some action => applyAction action st
  | None => st
  end.

(** ** Well-formed requests and the words of the specification *)

(** A selection is a range of offsets into the text. *)
Definition wellFormed (args : TransformArgs) : Prop :=
  0 <= selectionStart args
  /\ selectionStart args <= selectionEnd args
  /\ selectionEnd args <= JS.length (text args).

(** [T[a:b]] and [T[a:]] of the specification, on natural offsets. *)
Definition upTo (k : Z) (t : jsstring) : jsstring := firstn (Z.to_nat k) t.
Definition from (k : Z) (t : jsstring) : jsstring := skipn (Z.to_nat k) t.
Definition between (a b : Z) (t : jsstring) : jsstring :=
  firstn (Z.to_nat b - Z.to_nat a) (skipn (Z.to_nat a) t).

(** The code unit at an offset, when there is one. *)
Definition unitAt (t : jsstring) (i : Z) : option N :=
  if i <? 0 then None else nth_error t (Z.to_nat i).

Definition isLF (o : option N) : bool :=
  match o with
  | Some c => unit_eqb c LF
  | None => false
  end.

(** The separators of the heading, in the specification's words: none at the
    start of the document or right after a newline (at its end or right before
    one), a blank line otherwise. *)
Definition headingLeadingSep (t : jsstring) (start : Z) : jsstring :=
  if (start =? 0) || isLF (unitAt t (start - 1)) then [] else [LF; LF].

Definition headingTrailingSep (t : jsstring) (stop : Z) : jsstring :=
  if (stop =? JS.length t) || isLF (unitAt t stop) then [] else [LF; LF].

(** The separators of a block (fenced code, divider): one newline next to a
    newline, two otherwise, the ends of the document included. *)
Definition blockLeadingSep (t : jsstring) (start : Z) : jsstring :=
  if isLF (unitAt t (start - 1)) then [LF] else [LF; LF].

Definition blockTrailingSep (t : jsstring) (stop : Z) : jsstring :=
  if isLF (unitAt t stop) then [LF] else [LF; LF].

(** The content a transform works on: the selection, or the placeholder
    when nothing is selected. *)
Definition contentOf (t : jsstring) (a b : Z) (placeholder : jsstring)
    : jsstring :=
  match between a b t with
  | [] => placeholder
  | sel => sel
  end.

(** The second application the specification's idempotence check talks
    about: the transform applied to its own result, the selection being the
    one that result returned. *)
Definition wrapAgain (before after placeholder : jsstring)
    (args : TransformArgs) : TransformResult :=
  let r1 := wrapSelection before after placeholder args in
  wrapSelection before after placeholder
    (mkArgs (value r1) (resultStart r1) (resultEnd r1)).


(** The divider's result, for a given choice of the two separators. *)
Definition dividerWith (lead trail : jsstring -> Z -> jsstring)
    (args : TransformArgs) : jsstring :=
  upTo (selectionStart args) (text args)
    ++ lead (text args) (selectionStart args)
    ++ lit "---"
    ++ trail (text args) (selectionEnd args)
    ++ from (selectionEnd args) (text args).

(** A fenced block: the fence lines around the content, between two
    separators. *)
Definition fencedBlock (lead content trail : jsstring) : jsstring :=
  lead ++ lit "```" ++ [LF] ++ content ++ [LF] ++ lit "```" ++ trail.

Definition isSeparator (x : jsstring) : Prop := x = [LF] \/ x = [LF; LF].

(** The result replaces the selection by a fenced block. *)
Definition producesFencedBlock (args : TransformArgs) (r : TransformResult)
    : Prop :=
  exists lead content trail,
    isSeparator lead /\ isSeparator trail
    /\ value r
       = upTo (selectionStart args) (text args)
           ++ fencedBlock lead content trail
           ++ from (selectionEnd args) (text args).

(** The content of the code transform: the selection, or the placeholder. *)
Definition codeContent (args : TransformArgs) : jsstring :=
  contentOf (text args) (selectionStart args) (selectionEnd args)
    (lit "code snippet").

(** The returned selection is a range of offsets into the returned value. *)
Definition validSelection (r : TransformResult) : Prop :=
  0 <= resultStart r
  /\ resultStart r <= resultEnd r
  /\ resultEnd r <= JS.length (value r).

(** The returned value keeps the text before and after the selection. *)
Definition keepsSurroundings (args : TransformArgs) (r : TransformResult)
    : Prop :=
  exists middle,
    value r
    = upTo (selectionStart args) (text args)
        ++ middle
        ++ from (selectionEnd args) (text args).

(** A transform that is well behaved on every well-formed request. *)
Definition wellBehaved (f : TransformArgs -> TransformResult) : Prop :=
  forall args, wellFormed args ->
    validSelection (f args) /\ keepsSurroundings args (f args).

(** The ids of the registry, in its order. *)
Definition registeredIds : list jsstring := List.map id formattingActions.

(** White space only. *)
Definition allWhiteSpace (s : jsstring) : bool := forallb isWhiteSpace s.

(** The line has a unit that is not white space. *)
Definition hasVisible (s : jsstring) : bool :=
  existsb (fun c => negb (isWhiteSpace c)) s.

(** The per-line function of prefixLines, in the specification's words. *)
Definition prefixed (prefix line : jsstring) : jsstring :=
  if hasVisible line then prefix ++ line else prefix.

(** The two line endings [/\r?\n/] matches. *)
Definition lineEnding (x : jsstring) : Prop := x = [LF] \/ x = [CR; LF].

(** The pieces of a split, with the line endings put back between them. *)
Fixpoint interleave (pieces endings : list jsstring) : jsstring :=
  match pieces, endings with
  | p :: ps, e :: es => p ++ e ++ interleave ps es
  | p :: _, [] => p
  | [], _ => []
  end.

(** What the split guarantees: pieces free of line feeds, one more piece
    than there are line feeds, and the text back when a line ending is put
    between consecutive pieces. *)
Definition splitOf (s : jsstring) (pieces : list jsstring) : Prop :=
  pieces <> []
  /\ Forall (fun p => ~ In LF p) pieces
  /\ List.length pieces = S (count_occ N.eq_dec s LF)
  /\ exists endings,
       S (List.length endings) = List.length pieces
       /\ Forall lineEnding endings
       /\ interleave pieces endings = s.

(** ** The rest of the component: counters, preview, keys, buttons, storage *)

Definition STORAGE_KEY : jsstring := lit "quick-writer-draft".

(** U+2014, the dash of the template and of the empty preview. *)
Definition EMDASH : jsstring := [8212%N].

Definition STARTER_TEMPLATE : jsstring :=
  join [LF]
    [ lit "# Quick Writer";
      [];
      lit "Jot ideas, draft copy, or outline tasks. This editor keeps your markdown in sync locally so you can close the tab and pick up where you left off.";
      [];
      lit "## Quick tips";
      [];
      lit "- Use the toolbar or keyboard shortcuts for common formatting.";
      lit "- Preview updates instantly " ++ EMDASH
        ++ lit " perfect for verifying headings, lists, and code snippets.";
      lit "- Everything is stored in your browser only. Clear or reset any time.";
      [];
      lit "### Try it out";
      [];
      lit "- [ ] Capture a thought";
      lit "- [ ] Drop a reference link: https://vercel.com";
      lit "- [ ] Paste sample code:";
      [];
      lit "```ts";
      lit "export const hello = (name: string) => {";
      lit "  return `Hey ${name}! Ready to ship?`;";
      lit "};";
      lit "```";
      [] ].

(** [s.split(/\s+/)]: scanning from the left, a maximal run of white space
    ends the current piece; [inGap] tells that the scan is inside such a run.
    The split starts outside a run, so white space at the very start gives an
    empty first piece. *)
Fixpoint splitSpaces (inGap : bool) (s : jsstring) : list jsstring :=
  match s with
  | [] => [[]]
  | c :: rest =>
      if isWhiteSpace c
      then if inGap then splitSpaces true rest else [] :: splitSpaces true rest
      else consHead c (splitSpaces false rest)
  end.

Record Stats := mkStats {
  wordCount : Z;
  charCount : Z;
  lineCount : Z
}.

Definition stats (draft : jsstring) : Stats :=
  let trimmed := trim draft in
  let wordCount :=
    match trimmed with
    | [] => 0
    | _ => Z.of_nat (List.length (splitSpaces false trimmed))
    end in
  let charCount := JS.length draft in
  let lineCount := Z.of_nat (List.length (splitLines draft)) in
  mkStats wordCount charCount lineCount.


Record KeyEvent := mkKeyEvent {
  key : jsstring;
  metaKey : bool;
  ctrlKey : bool
}.

(** The key handler of the textarea. The boolean of the result tells whether
    [event.preventDefault()] was called. [String.prototype.toLowerCase], whose
    case tables are not part of the repository, is a parameter. *)
Definition handleKeyDown (toLowerCase : jsstring -> jsstring)
    (event : KeyEvent) (st : Editor) : Editor * bool :=
  if JS.eqb (key event) (lit "Tab") then
    let position :=
      match textareaRef st with
      | Some ta => taSelectionStart ta
      | None => JS.length (draft st)
      end in
    let value :=
      slice (draft st) 0 position ++ lit "  " ++ sliceFrom (draft st) position in
    let nextPos := position + 2 in
    (mkEditor value (textareaRef st) (Some (nextPos, nextPos)), true)
  else
    let isShortcut := metaKey event || ctrlKey event in
    if negb isShortcut then (st, false)
    else
      let key := toLowerCase (key event) in
      if JS.eqb key (lit "b") then (runAction (lit "bold") st, true)
      else if JS.eqb key (lit "i") then (runAction (lit "italic") st, true)
      else if JS.eqb key (lit "e") then (runAction (lit "code") st, true)
      else if JS.eqb key (lit "2") then (runAction (lit "heading") st, true)
      else (st, false).




(** [window.localStorage], as far as the component uses it. *)
Definition Storage := jsstring -> option jsstring.

Definition getItem (store : Storage) (k : jsstring) : option jsstring :=
  store k.

Definition setItem (store : Storage) (k v : jsstring) : Storage :=
  fun k' => if JS.eqb k' k then Some v else store k'.

Inductive SaveState := saved | saving.

(** The draft with the refs and the state of the two storage effects. *)
Record Session := mkSession {
  sessionDraft : jsstring;
  saveState : SaveState;
  hydrated : bool;
  skipInitialSave : bool;
  storage : Storage
}.

(** The component before its first effects, in a browser with storage
    [store]. *)
Definition initialSession (store : Storage) : Session :=
  mkSession STARTER_TEMPLATE saved false true store.

(** The effect of the first render: a stored draft, when there is one and it
    is not empty, replaces the template. *)
Definition hydrateEffect (s : Session) : Session :=
  let stored := getItem (storage s) STORAGE_KEY in
  let draft :=
    match stored with
    | Some (c :: rest) => c :: rest
    | _ => sessionDraft s
    end in
  mkSession draft (saveState s) true (skipInitialSave s) (storage s).

(** The effect that runs for every new draft; the timer that puts the
    indicator back to [saved] 420 ms later is left out. *)
Definition saveEffect (s : Session) : Session :=
  if negb (hydrated s) then s
  else if skipInitialSave s then
    mkSession (sessionDraft s) (saveState s) (hydrated s) false (storage s)
  else
    mkSession (sessionDraft s) saving (hydrated s) (skipInitialSave s)
      (setItem (storage s) STORAGE_KEY (sessionDraft s)).

(** [setDraft(d)] followed by the render it causes: the save effect depends
    on the draft and runs when the draft is a new one. *)
Definition setDraft (d : jsstring) (s : Session) : Session :=
  if JS.eqb d (sessionDraft s) then s
  else saveEffect
         (mkSession d (saveState s) (hydrated s) (skipInitialSave s)
            (storage s)).

(** Loading the page in the production build: the effects of the first
    render run once, in the order of their declaration, then comes the
    render the hydration's [setDraft] causes when it has changed the draft,
    with the save effect once more. (In the first render the save effect
    stops at [skipInitialSave], before it reads the draft.) *)
Definition mount (store : Storage) : Session :=
  let s := saveEffect (hydrateEffect (initialSession store)) in
  if JS.eqb (sessionDraft s) STARTER_TEMPLATE then s else saveEffect s.

(** Loading the page in the development build. The configuration sets
    [reactStrictMode], under which React runs the effects of the first
    render a second time, refs kept. Both runs belong to the first render
    and see its draft, the template: the first run of the save effect stops
    at [skipInitialSave], the second finds it cleared and stores the
    template. The hydration's [setDraft] takes effect after them. *)
Definition mountStrict (store : Storage) : Session :=
  let h := hydrateEffect (initialSession store) in
  let firstRender :=
    mkSession (sessionDraft (initialSession store)) (saveState h)
      (hydrated h) (skipInitialSave h) (storage h) in
  let firstRun := saveEffect firstRender in
  let secondRun := saveEffect firstRun in
  setDraft (sessionDraft h) secondRun.

(** Word starts: units that are not white space and come first or right
    after white space. [atGap] tells that the previous unit was white space
    (or that there was none). *)
Fixpoint wordStarts (atGap : bool) (s : jsstring) : nat :=
  match s with
  | [] => 0
  | c :: rest =>
      if isWhiteSpace c then wordStarts true rest
      else ((if atGap then 1 else 0) + wordStarts false rest)%nat
  end.

(** The textarea's selection, when there is a textarea, is a range of
    offsets into the draft. *)
Definition textareaInDraft (st : Editor) : Prop :=
  match textareaRef st with
  | Some ta =>
      0 <= taSelectionStart ta
      /\ taSelectionStart ta <= taSelectionEnd ta
      /\ taSelectionEnd ta <= JS.length (draft st)
  | None => True
  end.

(** The pending selection, when there is one, is a range of offsets into the
    draft. *)
Definition pendingInDraft (st : Editor) : Prop :=
  match nextSelection st with
  | Some (start, stop) =>
      0 <= start /\ start <= stop /\ stop <= JS.length (draft st)
  | None => True
  end.



(** The content of a heading: the trimmed selection without its marker, or
    the placeholder. *)
Definition headingContent (t : jsstring) (s e : Z) : jsstring :=
  orElse (trim (stripHeadingMarker (slice t s e))) (lit "Heading").

(** A transform applied to its own result, with the selection that result
    returned: what pressing the same button twice does. *)
Definition applyTwice (f : TransformArgs -> TransformResult)
    (args : TransformArgs) : TransformResult :=
  let r1 := f args in
  f (mkArgs (value r1) (resultStart r1) (resultEnd r1)).

(** Where the Tab key inserts: the start of the textarea's selection, or the
    end of the draft when there is no textarea. *)
Definition insertionPoint (st : Editor) : Z :=
  match textareaRef st with
  | Some ta => taSelectionStart ta
  | None => JS.length (draft st)
  end.




(** The request [applyAction] hands to the transform. *)
Definition requestOf (st : Editor) : TransformArgs :=
  mkArgs (draft st)
    (match textareaRef st with
     | Some ta => taSelectionStart ta
     | None => JS.length (draft st)
     end)
    (match textareaRef st with
     | Some ta => taSelectionEnd ta
     | None => JS.length (draft st)
     end).

(** A textarea that selects the range it is asked to select, when that is a
    range of offsets into its value. *)
Definition honoursRanges (setSelectionRange : jsstring -> Z -> Z -> Textarea)
    : Prop :=
  forall v a b,
    0 <= a -> a <= b -> b <= JS.length v ->
    setSelectionRange v a b = mkTextarea a b.

(** A line ending as the split takes it: a carriage return with its line
    feed, or a line feed that no carriage return precedes (a carriage return
    right before a line feed always goes with it). *)
Definition properEnding (piece ending : jsstring) : Prop :=
  ending = [CR; LF]
  \/ (ending = [LF] /\ forall x, piece <> x ++ [CR]).

(** One ending after each piece but the last, each proper for its piece. *)
Fixpoint endingsFit (pieces endings : list jsstring) : Prop :=
  match pieces with
  | [] => False
  | p :: ps =>
      match endings with
      | [] => ps = []
      | e :: es => properEnding p e /\ endingsFit ps es
      end
  end.

(** The pieces are the text cut at its line endings, [\r\n] taken whole. *)
Definition splitExact (s : jsstring) (pieces : list jsstring) : Prop :=
  exists endings,
    endingsFit pieces endings /\ interleave pieces endings = s.

(** The first and the last unit of a string, when it has any, are not white
    space. *)
Definition visibleEnds (s : jsstring) : Prop :=
  (forall c x, s = c :: x -> isWhiteSpace c = false)
  /\ (forall x d, s = x ++ [d] -> isWhiteSpace d = false).

(** Closes a goal about concrete strings and offsets by evaluation. *)
Ltac concrete := vm_compute; try reflexivity; try (intro; discriminate).

(** ** Facts about the string primitives *)

Section StringFacts.

Implicit Types (s t u : jsstring) (c : N).

Lemma length_nonneg s : 0 <= JS.length s.
Proof. unfold JS.length. lia. Qed.

Lemma length_app s t : JS.length (s ++ t) = JS.length s + JS.length t.
Proof. unfold JS.length. rewrite List.length_app. lia. Qed.

Lemma length_nil : JS.length [] = 0.
Proof. reflexivity. Qed.

Lemma length_zero_nil s : JS.length s = 0 -> s = [].
Proof.
  destruct s; [reflexivity|]. unfold JS.length.
  rewrite List.length_cons. lia.
Qed.

Lemma length_pos_iff s : (0 <? JS.length s) = false <-> s = [].
Proof.
  unfold JS.length. destruct s as [|c s]; simpl; split; intros H;
    try reflexivity; try discriminate.
Qed.

Lemma eqb_refl s : JS.eqb s s = true.
Proof.
  induction s as [|c s IH]; simpl; [reflexivity|].
  unfold unit_eqb. now rewrite N.eqb_refl, IH.
Qed.

Lemma eqb_eq s t : JS.eqb s t = true <-> s = t.
Proof.
  split; [|intros ->; apply eqb_refl].
  revert t. induction s as [|a s IH]; intros [|b t]; simpl;
    try discriminate; try reflexivity.
  unfold unit_eqb. intros H. apply andb_true_iff in H as [Hab Hst].
  apply N.eqb_eq in Hab. apply IH in Hst. now subst.
Qed.

Lemma eqb_neq s t : JS.eqb s t = false <-> s <> t.
Proof.
  rewrite <- eqb_eq. destruct (JS.eqb s t); split; congruence.
Qed.

(** [slice] on offsets inside the string is the plain sublist. *)
Lemma slice_prefix t k :
  0 <= k <= JS.length t -> slice t 0 k = upTo k t.
Proof.
  intros Hk. unfold slice, relIndex, upTo.
  replace (0 <? 0) with false by reflexivity.
  destruct (k <? 0) eqn:E; [apply Z.ltb_lt in E; lia|].
  rewrite (Z.min_l 0) by lia. rewrite (Z.min_l k) by lia.
  rewrite Z.sub_0_r, Z.max_l by lia. reflexivity.
Qed.

Lemma sliceFrom_suffix t k :
  0 <= k <= JS.length t -> sliceFrom t k = from k t.
Proof.
  intros Hk. unfold sliceFrom, slice, relIndex, from.
  destruct (k <? 0) eqn:E; [apply Z.ltb_lt in E; lia|].
  destruct (JS.length t <? 0) eqn:E'; [apply Z.ltb_lt in E'; lia|].
  rewrite (Z.min_l k) by lia. rewrite Z.min_id.
  apply firstn_all2. rewrite length_skipn. unfold JS.length in *. lia.
Qed.

Lemma slice_between t a b :
  0 <= a -> a <= b -> b <= JS.length t -> slice t a b = between a b t.
Proof.
  intros Ha Hab Hb. unfold slice, relIndex, between.
  destruct (a <? 0) eqn:E; [apply Z.ltb_lt in E; lia|].
  destruct (b <? 0) eqn:E'; [apply Z.ltb_lt in E'; lia|].
  rewrite (Z.min_l a), (Z.min_l b) by lia.
  rewrite Z.max_l by lia. f_equal. lia.
Qed.

Lemma text_parts t a b :
  0 <= a -> a <= b -> b <= JS.length t ->
  t = upTo a t ++ between a b t ++ from b t.
Proof.
  intros Ha Hab Hb. unfold upTo, between, from.
  rewrite <- (firstn_skipn (Z.to_nat a) t) at 1. f_equal.
  rewrite <- (firstn_skipn (Z.to_nat b - Z.to_nat a)
                (skipn (Z.to_nat a) t)) at 1.
  f_equal. rewrite skipn_skipn. f_equal. lia.
Qed.

Lemma length_upTo t k :
  0 <= k <= JS.length t -> JS.length (upTo k t) = k.
Proof.
  intros Hk. unfold upTo, JS.length in *. rewrite length_firstn. lia.
Qed.

Lemma length_from t k :
  0 <= k <= JS.length t -> JS.length (from k t) = JS.length t - k.
Proof.
  intros Hk. unfold from, JS.length in *. rewrite length_skipn. lia.
Qed.

Lemma length_between t a b :
  0 <= a -> a <= b -> b <= JS.length t ->
  JS.length (between a b t) = b - a.
Proof.
  intros Ha Hab Hb. unfold between, JS.length in *.
  rewrite length_firstn, length_skipn. lia.
Qed.

Lemma between_nil_iff t a b :
  0 <= a -> a <= b -> b <= JS.length t ->
  between a b t = [] <-> a = b.
Proof.
  intros Ha Hab Hb. split; intros H.
  - pose proof (length_between t a b Ha Hab Hb) as L.
    rewrite H, length_nil in L. lia.
  - subst b. unfold between. now rewrite Nat.sub_diag.
Qed.

(** Reading a result back: the part of [p ++ m ++ q] between the ends of
    [p] and of [p ++ m] is [m]. *)
Lemma slice_middle p m q :
  slice (p ++ m ++ q) (JS.length p) (JS.length p + JS.length m) = m.
Proof.
  pose proof (length_nonneg p). pose proof (length_nonneg m).
  pose proof (length_nonneg q).
  rewrite slice_between; try lia.
  2:{ rewrite !length_app. lia. }
  unfold between, JS.length.
  rewrite Z2Nat.inj_add, !Nat2Z.id by lia.
  replace (List.length p + List.length m - List.length p)%nat
    with (List.length m + 0)%nat by lia.
  rewrite skipn_app, skipn_all, Nat.sub_diag. simpl.
  now rewrite firstn_app_2, app_nil_r.
Qed.

Lemma last_unit_of_prefix t m :
  (m < List.length t)%nat ->
  skipn m (firstn (S m) t)
  = match nth_error t m with Some x => [x] | None => [] end.
Proof.
  revert m. induction t as [|a t IH]; intros m Hm; simpl in Hm; [lia|].
  destruct m as [|m]; [reflexivity|].
  change (firstn (S (S m)) (a :: t)) with (a :: firstn (S m) t).
  simpl skipn. simpl nth_error. apply IH. lia.
Qed.

Lemma first_unit_of_suffix t m :
  firstn 1 (skipn m t)
  = match nth_error t m with Some x => [x] | None => [] end.
Proof.
  revert m. induction t as [|a t IH]; intros [|m]; try reflexivity.
  simpl skipn. simpl nth_error. apply IH.
Qed.

(** [before.endsWith("\n")] looks at the unit right before the selection. *)
Lemma endsWith_LF_upTo t k :
  0 <= k <= JS.length t ->
  endsWith (upTo k t) [LF] = isLF (unitAt t (k - 1)).
Proof.
  intros Hk. unfold endsWith, upTo, unitAt, JS.length in *.
  rewrite length_firstn. simpl List.length.
  destruct (Z.to_nat k) as [|m] eqn:E.
  - assert (k = 0) by lia. subst k. reflexivity.
  - destruct (k - 1 <? 0) eqn:E'; [apply Z.ltb_lt in E'; lia|].
    replace (Z.to_nat (k - 1)) with m by lia.
    rewrite Nat.min_l by lia.
    replace (1 <=? S m)%nat with true by reflexivity.
    replace (S m - 1)%nat with m by lia.
    rewrite last_unit_of_prefix by lia.
    destruct (nth_error t m) as [x|] eqn:En; simpl.
    + now rewrite andb_true_r.
    + apply nth_error_None in En. lia.
Qed.

(** [after.startsWith("\n")] looks at the unit right after the selection. *)
Lemma startsWith_LF_from t k :
  0 <= k -> startsWith (from k t) [LF] = isLF (unitAt t k).
Proof.
  intros Hk. unfold startsWith, from, unitAt. simpl List.length.
  destruct (k <? 0) eqn:E; [apply Z.ltb_lt in E; lia|].
  rewrite first_unit_of_suffix.
  destruct (nth_error t (Z.to_nat k)); simpl; [|reflexivity].
  now rewrite andb_true_r.
Qed.

End StringFacts.

(** ** What each transform computes on a well-formed request *)

Section Shapes.

Variables (t : jsstring) (a b : Z).
Hypothesis Ha : 0 <= a.
Hypothesis Hab : a <= b.
Hypothesis Hb : b <= JS.length t.

Lemma content_choice placeholder :
  (if 0 <? JS.length (between a b t) then between a b t else placeholder)
  = contentOf t a b placeholder.
Proof. unfold contentOf. now destruct (between a b t). Qed.

Lemma wrapSelection_shape before after placeholder :
  wrapSelection before after placeholder (mkArgs t a b)
  = mkResult
      (upTo a t ++ before ++ contentOf t a b placeholder ++ after ++ from b t)
      (a + JS.length before)
      (a + JS.length before + JS.length (contentOf t a b placeholder)).
Proof.
  unfold wrapSelection. simpl.
  rewrite slice_prefix, sliceFrom_suffix, slice_between by lia.
  now rewrite content_choice.
Qed.

Lemma prefixLines_shape prefix placeholder :
  let transformed :=
    join [LF]
      (List.map (prefixLine prefix) (splitLines (contentOf t a b placeholder))) in
  prefixLines prefix placeholder (mkArgs t a b)
  = mkResult (upTo a t ++ transformed ++ from b t)
      (a + JS.length transformed) (a + JS.length transformed).
Proof.
  unfold prefixLines. simpl.
  rewrite slice_prefix, sliceFrom_suffix, slice_between by lia.
  now rewrite content_choice.
Qed.

Lemma headingTransform_shape level :
  let content :=
    orElse (trim (stripHeadingMarker (between a b t))) (lit "Heading") in
  let prefix := JS.repeat (lit "#") level ++ lit " " in
  headingTransform level (mkArgs t a b)
  = mkResult
      (upTo a t ++ (headingLeadingSep t a ++ prefix ++ content
                      ++ headingTrailingSep t b) ++ from b t)
      (a + JS.length (headingLeadingSep t a) + JS.length prefix)
      (a + JS.length (headingLeadingSep t a) + JS.length prefix
         + JS.length content).
Proof.
  unfold headingTransform. simpl.
  rewrite slice_prefix, sliceFrom_suffix, slice_between by lia.
  rewrite endsWith_LF_upTo, startsWith_LF_from by lia.
  rewrite length_upTo by lia. reflexivity.
Qed.

(** The condition under which [codeTransform] takes its first branch. *)
Lemma codeTransform_branch :
  includes (contentOf t a b (lit "code snippet")) [LF]
    || (JS.length (between a b t) =? 0)
  = includes (between a b t) [LF] || (a =? b).
Proof.
  unfold contentOf.
  destruct (between a b t) as [|c sel] eqn:E.
  - apply between_nil_iff in E; try lia. subst b.
    change (JS.length [] =? 0) with true.
    now rewrite (Z.eqb_refl a), !orb_true_r.
  - replace (JS.length (c :: sel) =? 0) with false by reflexivity.
    destruct (a =? b) eqn:E'; [|reflexivity].
    apply Z.eqb_eq in E'. subst b.
    unfold between in E. rewrite Nat.sub_diag in E. discriminate.
Qed.

Lemma codeTransform_shape :
  let content := contentOf t a b (lit "code snippet") in
  codeTransform (mkArgs t a b)
  = if includes (between a b t) [LF] || (a =? b)
    then mkResult
           (upTo a t
              ++ (blockLeadingSep t a ++ lit "```" ++ [LF] ++ content
                    ++ [LF] ++ lit "```" ++ blockTrailingSep t b)
              ++ from b t)
           (a + JS.length (blockLeadingSep t a) + 4)
           (a + JS.length (blockLeadingSep t a) + 4 + JS.length content)
    else mkResult
           (upTo a t ++ (lit "`" ++ content ++ lit "`") ++ from b t)
           (a + 1) (a + 1 + JS.length content).
Proof.
  intros content. unfold codeTransform. cbv zeta.
  cbn [text selectionStart selectionEnd].
  rewrite slice_prefix, sliceFrom_suffix, slice_between by lia.
  rewrite content_choice. fold content.
  unfold content at 1. rewrite codeTransform_branch.
  rewrite endsWith_LF_upTo, startsWith_LF_from by lia.
  rewrite length_upTo by lia. reflexivity.
Qed.

Lemma dividerTransform_shape :
  let insertion :=
    blockLeadingSep t a ++ lit "---" ++ blockTrailingSep t b in
  dividerTransform (mkArgs t a b)
  = mkResult (upTo a t ++ insertion ++ from b t)
      (a + JS.length insertion) (a + JS.length insertion).
Proof.
  unfold dividerTransform. simpl.
  rewrite slice_prefix, sliceFrom_suffix by lia.
  rewrite endsWith_LF_upTo, startsWith_LF_from by lia.
  rewrite length_upTo by lia. reflexivity.
Qed.

End Shapes.

(** ** Reading parts of a concatenation back *)

Section Concat.

Implicit Types (p m q : jsstring).

Lemma upTo_app p q : upTo (JS.length p) (p ++ q) = p.
Proof.
  unfold upTo, JS.length. rewrite Nat2Z.id.
  replace (List.length p) with (List.length p + 0)%nat by lia.
  now rewrite firstn_app_2, app_nil_r.
Qed.

Lemma from_app p q : from (JS.length p) (p ++ q) = q.
Proof.
  unfold from, JS.length. rewrite Nat2Z.id.
  now rewrite skipn_app, skipn_all, Nat.sub_diag.
Qed.

Lemma between_app p m q :
  between (JS.length p) (JS.length p + JS.length m) (p ++ m ++ q) = m.
Proof.
  rewrite <- slice_between.
  - apply slice_middle.
  - apply length_nonneg.
  - pose proof (length_nonneg m). lia.
  - rewrite !length_app. pose proof (length_nonneg q). lia.
Qed.

Lemma slice_in_markers p bf m af q :
  slice (p ++ bf ++ m ++ af ++ q)
    (JS.length p + JS.length bf)
    (JS.length p + JS.length bf + JS.length m) = m.
Proof.
  rewrite <- length_app.
  rewrite (app_assoc p bf). apply slice_middle.
Qed.

End Concat.

(** ** The wrap-selection transform *)

Section WrapSelection.

Variables (before after placeholder : jsstring).

(** C2. With a caret at offset [k] of [T] (nothing selected), wrapSelection
    returns [T[0:k] + before + placeholder + after + T[k:]], and the
    returned selection starts at [k + length before], ends
    [length placeholder] later, and reads back the placeholder. *)
Theorem wrapSelection_caret (T : jsstring) (k : Z) :
  0 <= k <= JS.length T ->
  value (wrapSelection before after placeholder (mkArgs T k k))
    = upTo k T ++ before ++ placeholder ++ after ++ from k T
  /\ resultStart (wrapSelection before after placeholder (mkArgs T k k))
    = k + JS.length before
  /\ resultEnd (wrapSelection before after placeholder (mkArgs T k k))
    = resultStart (wrapSelection before after placeholder (mkArgs T k k))
      + JS.length placeholder
  /\ slice (value (wrapSelection before after placeholder (mkArgs T k k)))
       (resultStart (wrapSelection before after placeholder (mkArgs T k k)))
       (resultEnd (wrapSelection before after placeholder (mkArgs T k k)))
    = placeholder.
Proof.
  intros Hk. rewrite wrapSelection_shape by lia. simpl.
  assert (E : contentOf T k k placeholder = placeholder).
  { unfold contentOf, between. now rewrite Nat.sub_diag. }
  rewrite E. repeat split.
  pose proof (length_upTo T k Hk) as Lu.
  set (u := upTo k T) in *. set (f := from k T).
  rewrite <- Lu. apply slice_in_markers.
Qed.

(** C3. With a non-empty selection, the part of the result between the
    returned offsets is the text that was selected, and the result is that
    text between the two markers, in its old surroundings. *)
Theorem wrapSelection_roundtrip (T : jsstring) (s e : Z) :
  0 <= s -> s < e -> e <= JS.length T ->
  slice (value (wrapSelection before after placeholder (mkArgs T s e)))
    (resultStart (wrapSelection before after placeholder (mkArgs T s e)))
    (resultEnd (wrapSelection before after placeholder (mkArgs T s e)))
    = slice T s e
  /\ value (wrapSelection before after placeholder (mkArgs T s e))
    = slice T 0 s ++ before ++ slice T s e ++ after ++ sliceFrom T e.
Proof.
  intros Hs Hse He. rewrite wrapSelection_shape by lia. simpl.
  rewrite slice_prefix, sliceFrom_suffix, (slice_between T s e) by lia.
  assert (E : contentOf T s e placeholder = between s e T).
  { unfold contentOf. destruct (between s e T) eqn:B; [|reflexivity].
    apply between_nil_iff in B; lia. }
  rewrite E. split; [|reflexivity].
  pose proof (length_upTo T s ltac:(lia)) as Lu.
  set (u := upTo s T) in *. set (m := between s e T). set (f := from e T).
  rewrite <- Lu. apply slice_in_markers.
Qed.

(** Wrapping the result of a wrap again, with the selection the first wrap
    returned: the markers end up nested around the same content. *)
Lemma wrapSelection_twice (T : jsstring) (s e : Z) :
  0 <= s -> s <= e -> e <= JS.length T ->
  let r1 := wrapSelection before after placeholder (mkArgs T s e) in
  let r2 := wrapSelection before after placeholder
              (mkArgs (value r1) (resultStart r1) (resultEnd r1)) in
  let content := contentOf T s e placeholder in
  value r1 = upTo s T ++ before ++ content ++ after ++ from e T
  /\ value r2
     = upTo s T ++ before ++ before ++ content ++ after ++ after ++ from e T
  /\ resultStart r2 = resultStart r1 + JS.length before
  /\ resultEnd r2 = resultStart r2 + JS.length content.
Proof.
  intros Hs Hse He r1 r2 content.
  assert (E1 : r1 = mkResult
                 (upTo s T ++ before ++ content ++ after ++ from e T)
                 (s + JS.length before)
                 (s + JS.length before + JS.length content)).
  { unfold r1, content. now apply wrapSelection_shape. }
  pose proof (length_nonneg before) as Lb.
  pose proof (length_nonneg content) as Lc.
  pose proof (length_nonneg after) as La.
  pose proof (length_upTo T s ltac:(lia)) as Lu.
  pose proof (length_from T e ltac:(lia)) as Lf.
  set (p := upTo s T ++ before).
  assert (Lp : JS.length p = s + JS.length before).
  { unfold p. rewrite length_app. lia. }
  assert (V : value r1 = p ++ content ++ (after ++ from e T)).
  { rewrite E1. simpl. unfold p. now rewrite <- app_assoc. }
  split; [now rewrite E1|].
  unfold r2. rewrite wrapSelection_shape.
  2:{ rewrite E1. simpl. lia. }
  2:{ rewrite E1. simpl. lia. }
  2:{ rewrite E1. simpl. rewrite !length_app. lia. }
  assert (S1 : resultStart r1 = JS.length p) by (rewrite E1; simpl; lia).
  assert (S2 : resultEnd r1 = JS.length p + JS.length content)
    by (rewrite E1; simpl; lia).
  assert (C2 : contentOf (value r1) (resultStart r1) (resultEnd r1)
                 placeholder = content).
  { unfold contentOf at 1. rewrite V, S1, S2, between_app.
    destruct content eqn:Ec; [|reflexivity].
    unfold content, contentOf in Ec.
    destruct (between s e T); [assumption|discriminate]. }
  rewrite C2. cbn [value resultStart resultEnd].
  rewrite S1, S2, V, upTo_app.
  rewrite (app_assoc p content), <- length_app, from_app.
  unfold p. rewrite <- !app_assoc. repeat split.
Qed.

End WrapSelection.

Lemma wrapSelection_caret_witness :
  0 <= 1 <= JS.length (lit "ab")
  /\ value (wrapSelection (lit "**") (lit "**") (lit "bold text")
              (mkArgs (lit "ab") 1 1))
     = lit "a**bold text**b".
Proof.
  split; [split; concrete|].
  transitivity (upTo 1 (lit "ab") ++ lit "**" ++ lit "bold text" ++ lit "**"
                  ++ from 1 (lit "ab")); [|reflexivity].
  apply (wrapSelection_caret (lit "**") (lit "**") (lit "bold text")
           (lit "ab") 1).
  split; concrete.
Defined.

Lemma wrapSelection_roundtrip_witness :
  slice (value (wrapSelection (lit "_") (lit "_") (lit "emphasis")
                  (mkArgs (lit "one two") 4 7)))
    (resultStart (wrapSelection (lit "_") (lit "_") (lit "emphasis")
                    (mkArgs (lit "one two") 4 7)))
    (resultEnd (wrapSelection (lit "_") (lit "_") (lit "emphasis")
                  (mkArgs (lit "one two") 4 7)))
  = lit "two".
Proof.
  transitivity (slice (lit "one two") 4 7); [|reflexivity].
  apply (wrapSelection_roundtrip (lit "_") (lit "_") (lit "emphasis")
           (lit "one two") 4 7); concrete.
Defined.

(** C9, as the code has it. For markers that are not both empty, applying
    wrapSelection to its own result, with the selection that result returned,
    puts the markers once more inside the existing ones: the value becomes
    [T[0:s] + before + before + content + after + after + T[e:]], which
    differs from the first result. *)
Theorem wrapSelection_not_idempotent
    (before after placeholder T : jsstring) (s e : Z) :
  0 <= s -> s <= e -> e <= JS.length T ->
  before <> [] \/ after <> [] ->
  value (wrapAgain before after placeholder (mkArgs T s e))
    = upTo s T ++ before ++ before ++ contentOf T s e placeholder
        ++ after ++ after ++ from e T
  /\ value (wrapSelection before after placeholder (mkArgs T s e))
    = upTo s T ++ before ++ contentOf T s e placeholder ++ after ++ from e T
  /\ value (wrapAgain before after placeholder (mkArgs T s e))
    <> value (wrapSelection before after placeholder (mkArgs T s e)).
Proof.
  intros Hs Hse He Hm.
  destruct (wrapSelection_twice before after placeholder T s e Hs Hse He)
    as (V1 & V2 & _).
  unfold wrapAgain. cbv zeta in V1, V2 |- *. rewrite V2, V1.
  repeat split. intros E.
  apply (f_equal JS.length) in E. rewrite !length_app in E.
  assert (JS.length before + JS.length after = 0) by lia.
  pose proof (length_nonneg before). pose proof (length_nonneg after).
  destruct Hm as [Hm|Hm]; apply Hm; apply length_zero_nil; lia.
Qed.

Lemma wrapSelection_not_idempotent_witness :
  value (wrapAgain (lit "**") (lit "**") (lit "bold text")
           (mkArgs (lit "ab") 0 1))
  <> value (wrapSelection (lit "**") (lit "**") (lit "bold text")
              (mkArgs (lit "ab") 0 1)).
Proof.
  apply (wrapSelection_not_idempotent (lit "**") (lit "**") (lit "bold text")
           (lit "ab") 0 1); concrete.
  left. concrete.
Defined.

(** C9 as stated fails for empty markers: [wrapSelection "" "" "x"] applied
    to its own result on ["ab"] with the first unit selected returns that
    result again, value and selection. *)
Lemma wrapSelection_empty_markers_noop :
  wellFormed (mkArgs (lit "ab") 0 1)
  /\ wrapAgain [] [] (lit "x") (mkArgs (lit "ab") 0 1)
     = wrapSelection [] [] (lit "x") (mkArgs (lit "ab") 0 1)
  /\ ~ (value (wrapAgain [] [] (lit "x") (mkArgs (lit "ab") 0 1))
        <> value (wrapSelection [] [] (lit "x") (mkArgs (lit "ab") 0 1))).
Proof.
  split; [repeat split; concrete|].
  split; [reflexivity|].
  intros H. apply H. reflexivity.
Qed.

(** ** The divider and the separators around a block *)

(** C1, as the code has it. On every well-formed request the divider puts
    [---] between the separators of a block: one newline when the unit right
    before the selection (right after it) is a newline, two newlines in every
    other case, the start and the end of the document included; the caret
    comes right after the insertion. Those are the separators of the fenced
    code block. The heading is the transform whose separators are empty at
    the ends of the document and next to a newline. *)
Theorem dividerTransform_separators (args : TransformArgs) :
  wellFormed args ->
  value (dividerTransform args)
    = dividerWith blockLeadingSep blockTrailingSep args
  /\ resultStart (dividerTransform args)
     = selectionStart args
       + JS.length (blockLeadingSep (text args) (selectionStart args))
       + 3
       + JS.length (blockTrailingSep (text args) (selectionEnd args))
  /\ resultEnd (dividerTransform args) = resultStart (dividerTransform args)
  /\ (forall level,
        value (headingTransform level args)
        = upTo (selectionStart args) (text args)
            ++ headingLeadingSep (text args) (selectionStart args)
            ++ (JS.repeat (lit "#") level ++ lit " ")
            ++ orElse
                 (trim (stripHeadingMarker
                          (between (selectionStart args) (selectionEnd args)
                             (text args))))
                 (lit "Heading")
            ++ headingTrailingSep (text args) (selectionEnd args)
            ++ from (selectionEnd args) (text args)).
Proof.
  destruct args as [t a b]. unfold wellFormed, dividerWith.
  cbn [text selectionStart selectionEnd].
  intros (Ha & Hab & Hb).
  rewrite dividerTransform_shape by lia.
  cbn [value resultStart resultEnd].
  repeat split.
  - now rewrite <- !app_assoc.
  - rewrite !length_app. change (JS.length (lit "---")) with 3. lia.
  - intros level. rewrite headingTransform_shape by lia.
    cbn [value]. now rewrite <- !app_assoc.
Qed.

Lemma dividerTransform_separators_witness :
  value (dividerTransform (mkArgs (lit "AB") 1 1))
  = [65; 10; 10; 45; 45; 45; 10; 10; 66]%N.
Proof.
  transitivity
    (dividerWith blockLeadingSep blockTrailingSep (mkArgs (lit "AB") 1 1));
    [|reflexivity].
  apply (dividerTransform_separators (mkArgs (lit "AB") 1 1)).
  repeat split; concrete.
Defined.

(** C1 as stated fails. In the empty document the heading's rule asks for no
    separator on either side, and the divider inserts a blank line on both;
    and with the caret between [A] and the newline of [A\nB] the heading's
    rule asks for no trailing separator, and the divider inserts a newline. *)
Lemma dividerTransform_not_heading_separators :
  wellFormed (mkArgs [] 0 0)
  /\ value (dividerTransform (mkArgs [] 0 0))
     <> dividerWith headingLeadingSep headingTrailingSep (mkArgs [] 0 0)
  /\ wellFormed (mkArgs [65; 10; 66]%N 1 1)
  /\ value (dividerTransform (mkArgs [65; 10; 66]%N 1 1))
     <> dividerWith headingLeadingSep headingTrailingSep
          (mkArgs [65; 10; 66]%N 1 1).
Proof.
  repeat split; concrete.
Qed.

(** ** The code transform *)

Lemma includes_LF (s : jsstring) : includes s [LF] = true <-> In LF s.
Proof.
  induction s as [|c s IH].
  - simpl. split; [discriminate|contradiction].
  - change (includes (c :: s) [LF])
      with ((unit_eqb c LF && true) || includes s [LF]).
    rewrite andb_true_r, orb_true_iff, IH. unfold unit_eqb.
    rewrite N.eqb_eq. simpl. intuition congruence.
Qed.

Lemma includes_LF_false (s : jsstring) :
  includes s [LF] = false <-> ~ In LF s.
Proof.
  rewrite <- includes_LF. destruct (includes s [LF]); split; congruence.
Qed.

Lemma blockLeadingSep_isSeparator t k : isSeparator (blockLeadingSep t k).
Proof. unfold blockLeadingSep, isSeparator. destruct (isLF _); auto. Qed.

Lemma blockTrailingSep_isSeparator t k : isSeparator (blockTrailingSep t k).
Proof. unfold blockTrailingSep, isSeparator. destruct (isLF _); auto. Qed.

(** C5. On a well-formed request the code transform produces a fenced block
    exactly when the content contains a newline or nothing is selected; the
    block then holds the content, which the returned offsets read back, and
    with nothing selected the content is the literal [code snippet]. With a
    selection that has no newline the result is the selection between two
    backticks and nothing else added, and the returned offsets read back the
    selection. *)
Theorem codeTransform_modes (args : TransformArgs) :
  wellFormed args ->
  (producesFencedBlock args (codeTransform args)
   <-> In LF (codeContent args) \/ selectionStart args = selectionEnd args)
  /\ (In LF (codeContent args) \/ selectionStart args = selectionEnd args ->
      value (codeTransform args)
      = upTo (selectionStart args) (text args)
          ++ fencedBlock
               (blockLeadingSep (text args) (selectionStart args))
               (codeContent args)
               (blockTrailingSep (text args) (selectionEnd args))
          ++ from (selectionEnd args) (text args)
      /\ slice (value (codeTransform args))
           (resultStart (codeTransform args))
           (resultEnd (codeTransform args))
         = codeContent args)
  /\ (selectionStart args = selectionEnd args ->
      codeContent args = lit "code snippet")
  /\ (selectionStart args < selectionEnd args ->
      ~ In LF (codeContent args) ->
      value (codeTransform args)
      = upTo (selectionStart args) (text args)
          ++ lit "`" ++ slice (text args) (selectionStart args)
                          (selectionEnd args) ++ lit "`"
          ++ from (selectionEnd args) (text args)
      /\ resultStart (codeTransform args) = selectionStart args + 1
      /\ resultEnd (codeTransform args) = selectionEnd args + 1
      /\ slice (value (codeTransform args))
           (resultStart (codeTransform args))
           (resultEnd (codeTransform args))
         = slice (text args) (selectionStart args) (selectionEnd args)).
Proof.
  destruct args as [t a b]. unfold wellFormed, codeContent.
  cbn [text selectionStart selectionEnd].
  intros (Ha & Hab & Hb).
  rewrite codeTransform_shape by lia.
  assert (Hsel : a < b -> contentOf t a b (lit "code snippet") = between a b t).
  { intros Hlt. unfold contentOf. destruct (between a b t) eqn:B; [|easy].
    apply between_nil_iff in B; lia. }
  assert (Hcaret : a = b -> contentOf t a b (lit "code snippet")
                            = lit "code snippet").
  { intros ->. unfold contentOf, between. now rewrite Nat.sub_diag. }
  assert (Hcond : includes (between a b t) [LF] || (a =? b) = true
                  <-> In LF (contentOf t a b (lit "code snippet")) \/ a = b).
  { rewrite orb_true_iff, includes_LF, Z.eqb_eq.
    split; intros [H|H]; auto.
    - destruct (Z.eq_dec a b) as [E|E]; [now right|left].
      rewrite Hsel by lia. exact H.
    - destruct (Z.eq_dec a b) as [E|E]; [now right|left].
      rewrite Hsel in H by lia. exact H. }
  destruct (includes (between a b t) [LF] || (a =? b)) eqn:Mode.
  - cbn [value resultStart resultEnd]. split; [|split; [|split]].
    + split; [intros _; now apply Hcond|].
      intros _. exists (blockLeadingSep t a),
        (contentOf t a b (lit "code snippet")), (blockTrailingSep t b).
      cbn [text selectionStart selectionEnd].
      split; [apply blockLeadingSep_isSeparator|].
      split; [apply blockTrailingSep_isSeparator|]. reflexivity.
    + intros _. split; [reflexivity|].
      pose proof (length_upTo t a ltac:(lia)) as Lu.
      set (u := upTo a t) in *. set (f := from b t).
      set (m := contentOf t a b (lit "code snippet")).
      set (lead := blockLeadingSep t a). set (trail := blockTrailingSep t b).
      replace (a + JS.length lead + 4)
        with (JS.length u + JS.length (lead ++ lit "```" ++ [LF]))
        by (rewrite length_app; change (JS.length (lit "```" ++ [LF])) with 4;
            lia).
      replace (u ++ (lead ++ lit "```" ++ [LF] ++ m ++ [LF] ++ lit "```"
                       ++ trail) ++ f)
        with (u ++ (lead ++ lit "```" ++ [LF]) ++ m
                ++ ([LF] ++ lit "```" ++ trail) ++ f)
        by (now rewrite <- !app_assoc).
      apply slice_in_markers.
    + exact Hcaret.
    + intros Hlt Hno. exfalso.
      destruct (proj1 Hcond eq_refl) as [H|H]; [contradiction|lia].
  - cbn [value resultStart resultEnd]. split; [|split; [|split]].
    + split; [|intros H; apply Hcond in H; discriminate].
      intros (lead & content & trail & Hl & _ & V).
      cbn [text selectionStart selectionEnd] in V.
      apply app_inv_head in V. unfold fencedBlock in V.
      destruct Hl as [-> | ->]; discriminate V.
    + intros H. apply Hcond in H. discriminate H.
    + exact Hcaret.
    + intros Hlt Hno. rewrite (Hsel Hlt), slice_between by lia.
      pose proof (length_between t a b Ha Hab Hb) as Lm.
      pose proof (length_upTo t a ltac:(lia)) as Lu.
      split; [now rewrite <- !app_assoc|].
      split; [reflexivity|]. split; [lia|].
      set (u := upTo a t) in *. set (m := between a b t) in *.
      set (f := from b t).
      replace (a + 1) with (JS.length u + JS.length (lit "`"))
        by (change (JS.length (lit "`")) with 1; lia).
      replace (slice ((u ++ (lit "`" ++ m ++ lit "`") ++ f)))
        with (slice (u ++ lit "`" ++ m ++ lit "`" ++ f))
        by (now rewrite <- !app_assoc).
      apply slice_in_markers.
Qed.

Lemma codeTransform_modes_witness :
  value (codeTransform (mkArgs (lit "ab") 1 1))
  = lit "a" ++ [LF; LF] ++ lit "```" ++ [LF] ++ lit "code snippet"
      ++ [LF] ++ lit "```" ++ [LF; LF] ++ lit "b"
  /\ value (codeTransform (mkArgs (lit "x = 1") 0 5)) = lit "`x = 1`".
Proof.
  assert (W1 : wellFormed (mkArgs (lit "ab") 1 1))
    by (repeat split; concrete).
  assert (W2 : wellFormed (mkArgs (lit "x = 1") 0 5))
    by (repeat split; concrete).
  split.
  - transitivity
      (upTo 1 (lit "ab")
         ++ fencedBlock (blockLeadingSep (lit "ab") 1)
              (codeContent (mkArgs (lit "ab") 1 1))
              (blockTrailingSep (lit "ab") 1)
         ++ from 1 (lit "ab")); [|reflexivity].
    apply (proj1 (proj2 (codeTransform_modes _ W1))).
    right. reflexivity.
  - transitivity
      (upTo 0 (lit "x = 1") ++ lit "`" ++ slice (lit "x = 1") 0 5 ++ lit "`"
         ++ from 5 (lit "x = 1")); [|reflexivity].
    apply (proj2 (proj2 (proj2 (codeTransform_modes _ W2)))).
    + concrete.
    + apply includes_LF_false. reflexivity.
Defined.

(** ** Properties shared by all the registered transforms *)

Section WellBehaved.

Ltac open_request :=
  intros [t a b] (Ha & Hab & Hb);
  cbn [text selectionStart selectionEnd] in Ha, Hab, Hb;
  pose proof (length_upTo t a ltac:(lia)) as Lu;
  pose proof (length_from t b ltac:(lia)) as Lf.

Ltac measure Lu Lf :=
  unfold validSelection; cbn [value resultStart resultEnd];
  rewrite ?length_app, ?Lu, ?Lf;
  repeat match goal with
         | |- context [JS.length ?x] =>
             lazymatch goal with
             | _ : 0 <= JS.length x |- _ => fail
             | _ => pose proof (length_nonneg x)
             end
         end;
  lia.

Lemma wrapSelection_wellBehaved before after placeholder :
  wellBehaved (wrapSelection before after placeholder).
Proof.
  open_request. rewrite wrapSelection_shape by lia. split.
  - measure Lu Lf.
  - exists (before ++ contentOf t a b placeholder ++ after).
    cbn. now rewrite <- !app_assoc.
Qed.

Lemma prefixLines_wellBehaved prefix placeholder :
  wellBehaved (prefixLines prefix placeholder).
Proof.
  open_request. rewrite prefixLines_shape by lia. split.
  - measure Lu Lf.
  - eexists. cbn. reflexivity.
Qed.

Lemma headingTransform_wellBehaved level :
  wellBehaved (headingTransform level).
Proof.
  open_request. rewrite headingTransform_shape by lia. split.
  - measure Lu Lf.
  - eexists. cbn [value text selectionStart selectionEnd]. reflexivity.
Qed.

Lemma codeTransform_wellBehaved : wellBehaved codeTransform.
Proof.
  open_request. rewrite codeTransform_shape by lia.
  destruct (includes (between a b t) [LF] || (a =? b)); split.
  - unfold validSelection. cbn [value resultStart resultEnd].
    rewrite !length_app, Lu, Lf.
    change (JS.length (lit "```")) with 3. change (JS.length [LF]) with 1.
    pose proof (length_nonneg (blockLeadingSep t a)).
    pose proof (length_nonneg (blockTrailingSep t b)).
    pose proof (length_nonneg (contentOf t a b (lit "code snippet"))).
    lia.
  - eexists. cbn [value text selectionStart selectionEnd]. reflexivity.
  - unfold validSelection. cbn [value resultStart resultEnd].
    rewrite !length_app, Lu, Lf.
    change (JS.length (lit "`")) with 1.
    pose proof (length_nonneg (contentOf t a b (lit "code snippet"))).
    lia.
  - eexists. cbn [value text selectionStart selectionEnd]. reflexivity.
Qed.

Lemma dividerTransform_wellBehaved : wellBehaved dividerTransform.
Proof.
  open_request. rewrite dividerTransform_shape by lia. split.
  - measure Lu Lf.
  - eexists. cbn [value text selectionStart selectionEnd]. reflexivity.
Qed.

(** Every transform of the registry is well behaved. *)
Lemma registry_wellBehaved (action : FormattingAction) :
  In action formattingActions -> wellBehaved (transform action).
Proof.
  unfold formattingActions. intros H.
  repeat (destruct H as [<- | H]); try contradiction;
    cbn [transform];
    auto using wrapSelection_wellBehaved, prefixLines_wellBehaved,
      headingTransform_wellBehaved, codeTransform_wellBehaved,
      dividerTransform_wellBehaved.
Qed.

End WellBehaved.

Lemma registeredIds_listing :
  registeredIds
  = [lit "bold"; lit "italic"; lit "heading"; lit "quote"; lit "code";
     lit "todo"; lit "divider"].
Proof. reflexivity. Qed.

(** C6. For every action of the registry and every well-formed request, the
    returned offsets satisfy
    [0 <= selectionStart <= selectionEnd <= length value]. *)
Theorem registry_selection_valid
    (action : FormattingAction) (args : TransformArgs) :
  In action formattingActions ->
  wellFormed args ->
  0 <= resultStart (transform action args)
  /\ resultStart (transform action args) <= resultEnd (transform action args)
  /\ resultEnd (transform action args)
     <= JS.length (value (transform action args)).
Proof.
  intros Hin Hwf. apply (registry_wellBehaved action Hin args Hwf).
Qed.

(** C7. For every action of the registry and every well-formed request, the
    returned value is [text[0:selectionStart]], then what the transform puts
    in place of the selection, then [text[selectionEnd:]]: the text outside
    the selection is kept as it was and where it was. *)
Theorem registry_keeps_surroundings
    (action : FormattingAction) (args : TransformArgs) :
  In action formattingActions ->
  wellFormed args ->
  exists middle,
    value (transform action args)
    = slice (text args) 0 (selectionStart args)
        ++ middle
        ++ sliceFrom (text args) (selectionEnd args)
    /\ slice (text args) 0 (selectionStart args)
       = upTo (selectionStart args) (text args)
    /\ sliceFrom (text args) (selectionEnd args)
       = from (selectionEnd args) (text args).
Proof.
  intros Hin Hwf.
  destruct (registry_wellBehaved action Hin args Hwf) as [_ [middle V]].
  destruct Hwf as (Ha & Hab & Hb).
  exists middle.
  rewrite slice_prefix, sliceFrom_suffix by lia. auto.
Qed.

Lemma registry_selection_valid_witness :
  validSelection (headingTransform 2 (mkArgs (lit "Title") 0 5)).
Proof.
  apply (registry_selection_valid
           (mkAction (lit "heading") (lit "Heading")
              (lit "Level 2 heading (" ++ CMD ++ lit "/Ctrl + 2)")
              (headingTransform 2))
           (mkArgs (lit "Title") 0 5)).
  - right. right. left. reflexivity.
  - repeat split; concrete.
Defined.

Lemma registry_keeps_surroundings_witness :
  exists middle,
    value (prefixLines (lit "- [ ] ") (lit "Task detail")
             (mkArgs (lit "buy milk") 4 4))
    = slice (lit "buy milk") 0 4 ++ middle ++ sliceFrom (lit "buy milk") 4
    /\ slice (lit "buy milk") 0 4 = upTo 4 (lit "buy milk")
    /\ sliceFrom (lit "buy milk") 4 = from 4 (lit "buy milk").
Proof.
  apply (registry_keeps_surroundings
           (mkAction (lit "todo") (lit "Todo") (lit "Checklist item")
              (prefixLines (lit "- [ ] ") (lit "Task detail")))
           (mkArgs (lit "buy milk") 4 4)).
  - do 5 right. left. reflexivity.
  - repeat split; concrete.
Defined.

(** ** Dispatch by id *)

Lemma findAction_registered (name : jsstring) (action : FormattingAction) :
  findAction name = Some action ->
  In action formattingActions /\ id action = name.
Proof.
  unfold findAction. intros H. apply find_some in H as [Hin Heq].
  split; [assumption|]. now apply eqb_eq.
Qed.

(** C8. runAction looks the id up in the registry (bold, italic, heading,
    quote, code, todo, divider). For an id that is not there the lookup finds
    nothing and runAction leaves the editor as it was: the draft, the
    textarea's selection and the pending selection are unchanged. *)
Theorem runAction_unregistered (name : jsstring) (st : Editor) :
  ~ In name registeredIds ->
  findAction name = None
  /\ runAction name st = st
  /\ draft (runAction name st) = draft st
  /\ textareaRef (runAction name st) = textareaRef st
  /\ nextSelection (runAction name st) = nextSelection st.
Proof.
  intros Hnot.
  assert (E : findAction name = None).
  { destruct (findAction name) as [action|] eqn:F; [|reflexivity].
    exfalso. apply Hnot. apply findAction_registered in F as [Hin <-].
    unfold registeredIds. now apply in_map. }
  unfold runAction. rewrite E. repeat split.
Qed.

Lemma runAction_unregistered_witness :
  runAction (lit "underline")
    (mkEditor (lit "note") (Some (mkTextarea 0 4)) None)
  = mkEditor (lit "note") (Some (mkTextarea 0 4)) None.
Proof.
  apply (runAction_unregistered (lit "underline")
           (mkEditor (lit "note") (Some (mkTextarea 0 4)) None)).
  rewrite registeredIds_listing. simpl.
  intros H. repeat (destruct H as [H|H]; [discriminate H|]). exact H.
Defined.

(** For a registered id, runAction applies that action's transform to the
    draft and the textarea's selection. *)
Lemma runAction_registered_bold (st : Editor) :
  runAction (lit "bold") st
  = applyAction
      (mkAction (lit "bold") (lit "Bold")
         (lit "Bold (" ++ CMD ++ lit "/Ctrl + B)")
         (wrapSelection (lit "**") (lit "**") (lit "bold text")))
      st.
Proof. reflexivity. Qed.

(** ** Trimming *)

Section Trimming.

Implicit Types (s : jsstring).

Lemma hasVisible_allWhiteSpace s : hasVisible s = negb (allWhiteSpace s).
Proof.
  induction s as [|c s IH]; [reflexivity|].
  unfold hasVisible, allWhiteSpace in *. simpl. rewrite IH.
  now destruct (isWhiteSpace c).
Qed.

Lemma allWhiteSpace_app s1 s2 :
  allWhiteSpace (s1 ++ s2) = allWhiteSpace s1 && allWhiteSpace s2.
Proof. apply forallb_app. Qed.

Lemma allWhiteSpace_rev s : allWhiteSpace (rev s) = allWhiteSpace s.
Proof.
  induction s as [|c s IH]; [reflexivity|].
  simpl rev. rewrite allWhiteSpace_app, IH. unfold allWhiteSpace. simpl.
  rewrite andb_true_r. apply andb_comm.
Qed.

(** [trimStart] removes a run of white space from the front and stops at
    the first unit that is not white space. *)
Lemma trimStart_split s :
  exists ws,
    s = ws ++ trimStart s
    /\ allWhiteSpace ws = true
    /\ match trimStart s with
       | [] => True
       | c :: _ => isWhiteSpace c = false
       end.
Proof.
  induction s as [|c s (ws & E & W & H)].
  - exists []. repeat split.
  - simpl. destruct (isWhiteSpace c) eqn:C.
    + exists (c :: ws). simpl. rewrite <- E.
      unfold allWhiteSpace in *. simpl. rewrite C, W. auto.
    + exists []. auto.
Qed.

Lemma trimStart_nil_iff s : trimStart s = [] <-> allWhiteSpace s = true.
Proof.
  induction s as [|c s IH]; [easy|].
  unfold allWhiteSpace in *. simpl.
  destruct (isWhiteSpace c); simpl; [exact IH|]. split; discriminate.
Qed.

Lemma trimEnd_split s :
  exists ws, s = trimEnd s ++ ws /\ allWhiteSpace ws = true.
Proof.
  unfold trimEnd. destruct (trimStart_split (rev s)) as (ws & E & W & _).
  exists (rev ws). split.
  - rewrite <- rev_app_distr, <- E. symmetry. apply rev_involutive.
  - now rewrite allWhiteSpace_rev.
Qed.

Lemma trimEnd_nil_iff s : trimEnd s = [] <-> allWhiteSpace s = true.
Proof.
  unfold trimEnd. rewrite <- (allWhiteSpace_rev s), <- trimStart_nil_iff.
  split; intros H.
  - apply (f_equal (@rev N)) in H. now rewrite rev_involutive in H.
  - now rewrite H.
Qed.

Lemma trim_nil_iff s : trim s = [] <-> allWhiteSpace s = true.
Proof.
  unfold trim. rewrite trimEnd_nil_iff.
  destruct (trimStart_split s) as (ws & E & W & H).
  rewrite E at 2. rewrite allWhiteSpace_app, W. reflexivity.
Qed.

(** What is left of a string after [trim]: the string without a run of
    white space at each end. *)
Lemma trim_split s :
  exists pre post,
    s = pre ++ trim s ++ post
    /\ allWhiteSpace pre = true /\ allWhiteSpace post = true.
Proof.
  destruct (trimStart_split s) as (pre & E & W & _).
  destruct (trimEnd_split (trimStart s)) as (post & E' & W').
  exists pre, post. unfold trim. rewrite <- E', <- E. auto.
Qed.

Lemma prefixLine_prefixed prefix line :
  prefixLine prefix line = prefixed prefix line.
Proof.
  unfold prefixLine, prefixed. rewrite hasVisible_allWhiteSpace.
  destruct (allWhiteSpace line) eqn:W.
  - apply trim_nil_iff in W. now rewrite W.
  - destruct (trim line) eqn:T; [|reflexivity].
    apply trim_nil_iff in T. congruence.
Qed.

End Trimming.

(** ** The ends of a trimmed string *)

Lemma trimStart_keeps_last (y : jsstring) (c : N) :
  isWhiteSpace c = false -> exists x, trimStart (y ++ [c]) = x ++ [c].
Proof.
  intros Hc. induction y as [|d y (x & IH)]; simpl.
  - rewrite Hc. now exists [].
  - destruct (isWhiteSpace d); [now exists x|].
    now exists (d :: y).
Qed.

(** A trimmed string is empty, or begins and ends with units that are not
    white space. *)
Lemma trim_ends (s : jsstring) :
  trim s = []
  \/ (exists c body, trim s = c :: body /\ isWhiteSpace c = false)
     /\ (exists body d, trim s = body ++ [d] /\ isWhiteSpace d = false).
Proof.
  unfold trim, trimEnd.
  destruct (trimStart_split s) as (_ & _ & _ & Hhead).
  destruct (trimStart s) as [|c r]; [now left|]. right.
  destruct (trimStart_keeps_last (rev r) c Hhead) as (x & Ex).
  destruct (trimStart_split (rev (c :: r))) as (_ & _ & _ & Hlast).
  simpl rev in *. rewrite Ex in *. split.
  - exists c, (rev x). split; [|assumption].
    now rewrite rev_app_distr.
  - destruct (x ++ [c]) as [|h tl] eqn:E.
    + destruct x; discriminate E.
    + exists (rev tl), h. split; [reflexivity|assumption].
Qed.

Lemma trimStart_head_visible (c : N) (s : jsstring) :
  isWhiteSpace c = false -> trimStart (c :: s) = c :: s.
Proof. intros H. simpl. now rewrite H. Qed.

Lemma trimStart_skips (gap s : jsstring) :
  allWhiteSpace gap = true -> trimStart (gap ++ s) = trimStart s.
Proof.
  induction gap as [|c gap IH]; [reflexivity|].
  unfold allWhiteSpace in *. simpl. intros H.
  apply andb_true_iff in H as [Hc Hg]. rewrite Hc. now apply IH.
Qed.

Lemma trimEnd_last_visible (s : jsstring) (d : N) :
  isWhiteSpace d = false -> trimEnd (s ++ [d]) = s ++ [d].
Proof.
  intros H. unfold trimEnd. rewrite rev_app_distr.
  change (rev [d] ++ rev s) with (d :: rev s).
  rewrite trimStart_head_visible by assumption.
  change (rev (d :: rev s)) with (rev (rev s) ++ [d]).
  now rewrite rev_involutive.
Qed.

(** Trimming twice is trimming once. *)
Lemma trim_idempotent (s : jsstring) : trim (trim s) = trim s.
Proof.
  destruct (trim_ends s) as [E|((c & body & E & Hc) & (body' & d & E' & Hd))].
  - now rewrite E.
  - unfold trim at 1. rewrite E at 1.
    rewrite trimStart_head_visible by assumption.
    rewrite <- E, E'. now apply trimEnd_last_visible.
Qed.

(** ** Splitting into lines *)

Section Lines.

Implicit Types (s : jsstring).

Lemma interleave_consHead c pieces endings :
  pieces <> [] ->
  interleave (consHead c pieces) endings = c :: interleave pieces endings.
Proof.
  destruct pieces as [|p ps]; [congruence|]. intros _.
  destruct endings; reflexivity.
Qed.

Lemma length_consHead c pieces :
  pieces <> [] -> List.length (consHead c pieces) = List.length pieces.
Proof. destruct pieces; [congruence|reflexivity]. Qed.

Lemma splitOf_break s pieces (ending : jsstring) :
  lineEnding ending -> splitOf s pieces ->
  splitOf (ending ++ s) ([] :: pieces).
Proof.
  intros He (Hne & Hlf & Hlen & endings & Hn & Hends & Hre).
  split; [discriminate|].
  split; [constructor; [intros []|assumption]|].
  split.
  - destruct He as [-> | ->]; simpl;
      repeat match goal with
             | |- context [N.eq_dec ?x ?y] => destruct (N.eq_dec x y)
             end; try discriminate; try congruence; simpl; lia.
  - exists (ending :: endings). split; [simpl; lia|].
    split; [now constructor|].
    destruct pieces as [|p ps]; [congruence|]. now rewrite <- Hre.
Qed.

Lemma splitOf_extend s pieces c :
  c <> LF -> splitOf s pieces -> splitOf (c :: s) (consHead c pieces).
Proof.
  intros Hc (Hne & Hlf & Hlen & endings & Hn & Hends & Hre).
  split; [destruct pieces; discriminate|].
  split.
  { destruct pieces as [|p ps]; [congruence|]. simpl.
    inversion Hlf; subst. constructor; [|assumption].
    intros [E|E]; [congruence|contradiction]. }
  split.
  { rewrite length_consHead by assumption. simpl.
    destruct (N.eq_dec c LF); [contradiction|assumption]. }
  exists endings. rewrite length_consHead by assumption.
  rewrite interleave_consHead by assumption. now rewrite Hre.
Qed.

Lemma splitOf_nil : splitOf [] [[]].
Proof.
  split; [discriminate|].
  split; [constructor; [intros []|constructor]|].
  split; [reflexivity|].
  exists []. split; [reflexivity|]. split; [constructor|reflexivity].
Qed.

Lemma splitLines_splitOf_bounded (n : nat) s :
  (List.length s <= n)%nat -> splitOf s (splitLines s).
Proof.
  revert s. induction n as [|n IH]; intros s Hn.
  - destruct s; [apply splitOf_nil|simpl in Hn; lia].
  - destruct s as [|c rest]; [apply splitOf_nil|].
    simpl in Hn. simpl splitLines. unfold unit_eqb.
    destruct (N.eqb_spec c LF) as [->|Hc].
    { apply (splitOf_break rest _ [LF]); [now left|apply IH; lia]. }
    destruct rest as [|d rest'].
    { apply splitOf_extend; [assumption|apply IH; simpl; lia]. }
    destruct (N.eqb_spec c CR) as [->|Hcr];
      destruct (N.eqb_spec d LF) as [->|Hd]; cbn [andb].
    + apply (splitOf_break rest' _ [CR; LF]); [now right|].
      apply IH. simpl in Hn. lia.
    + apply splitOf_extend; [assumption|apply IH; lia].
    + apply splitOf_extend; [assumption|apply IH; lia].
    + apply splitOf_extend; [assumption|apply IH; lia].
Qed.

Lemma splitLines_splitOf s : splitOf s (splitLines s).
Proof. now apply (splitLines_splitOf_bounded (List.length s)). Qed.

Lemma splitExact_nil : splitExact [] [[]].
Proof. exists []. split; reflexivity. Qed.

Lemma splitExact_break s pieces (ending : jsstring) :
  properEnding [] ending -> splitExact s pieces ->
  splitExact (ending ++ s) ([] :: pieces).
Proof.
  intros He (endings & Hfit & Hre).
  exists (ending :: endings). split; [cbn [endingsFit]; split; assumption|].
  destruct pieces as [|p ps]; [destruct endings; contradiction|].
  now rewrite <- Hre.
Qed.

Lemma splitExact_extend s pieces c :
  (forall s', s = LF :: s' -> c <> CR) ->
  splitExact s pieces -> splitExact (c :: s) (consHead c pieces).
Proof.
  intros Hc (endings & Hfit & Hre).
  destruct pieces as [|p ps]; [destruct endings; contradiction|].
  exists endings. split; [|now rewrite <- Hre; destruct endings].
  destruct endings as [|e es].
  - cbn [endingsFit consHead] in *. assumption.
  - cbn [endingsFit consHead] in *.
    destruct Hfit as [He Hfit]. split; [|assumption].
    destruct He as [->|[-> Hp]]; [now left|right].
    split; [reflexivity|]. intros [|c' x] E.
    + injection E as -> ->. apply (Hc (interleave ps es)); [|reflexivity].
      now rewrite <- Hre.
    + injection E as _ E. now apply (Hp x).
Qed.

Lemma properEnding_LF_after_nothing : properEnding [] [LF].
Proof. right. split; [reflexivity|]. intros [|c x]; discriminate. Qed.

Lemma splitLines_splitExact_bounded (n : nat) s :
  (List.length s <= n)%nat -> splitExact s (splitLines s).
Proof.
  revert s. induction n as [|n IH]; intros s Hn.
  - destruct s; [apply splitExact_nil|simpl in Hn; lia].
  - destruct s as [|c rest]; [apply splitExact_nil|].
    simpl in Hn. simpl splitLines. unfold unit_eqb.
    destruct (N.eqb_spec c LF) as [->|Hc].
    { apply (splitExact_break rest _ [LF]);
        [apply properEnding_LF_after_nothing|apply IH; lia]. }
    destruct rest as [|d rest'].
    { apply splitExact_extend; [discriminate|apply IH; simpl; lia]. }
    destruct (N.eqb_spec c CR) as [->|Hcr];
      destruct (N.eqb_spec d LF) as [->|Hd]; cbn [andb].
    + apply (splitExact_break rest' _ [CR; LF]); [now left|].
      apply IH. simpl in Hn. lia.
    + apply splitExact_extend; [|apply IH; lia].
      intros s' E. injection E as E _. contradiction.
    + apply splitExact_extend; [|apply IH; lia]. intros _ _. assumption.
    + apply splitExact_extend; [|apply IH; lia]. intros _ _. assumption.
Qed.

(** The split cuts the text at its line endings and nowhere else, and a
    carriage return right before a line feed goes with the ending, not with
    the piece. *)
Lemma splitLines_splitExact s : splitExact s (splitLines s).
Proof. now apply (splitLines_splitExact_bounded (List.length s)). Qed.

Lemma properEnding_lineEnding piece ending :
  properEnding piece ending -> lineEnding ending.
Proof. intros [->|[-> _]]; [now right|now left]. Qed.

End Lines.

(** ** The prefix-lines transform *)

Lemma prefixed_quote_starts (line : jsstring) :
  startsWith (prefixed (lit "> ") line) (lit "> ") = true.
Proof.
  unfold prefixed. destruct (hasVisible line); [|reflexivity].
  unfold startsWith. change (List.length (lit "> ")) with 2%nat.
  change (lit "> " ++ line) with (62%N :: 32%N :: line).
  cbn [firstn]. apply eqb_refl.
Qed.

Lemma prefixed_quote_no_LF (line : jsstring) :
  ~ In LF line -> ~ In LF (prefixed (lit "> ") line).
Proof.
  intros Hno. unfold prefixed. destruct (hasVisible line).
  - change (lit "> " ++ line) with (62%N :: 32%N :: line).
    intros [E|[E|E]]; [discriminate E|discriminate E|contradiction].
  - intros [E|[E|[]]]; discriminate E.
Qed.

(** C4. When the content of the request (the selection, or the placeholder
    when nothing is selected) splits into exactly three lines [l1], [l2],
    [l3], it is those lines with a line ending after the first and after the
    second: [\r\n], or a [\n] that no [\r] precedes (a [\r] before a [\n]
    belongs to the ending and is not kept in the line). The quote transform
    replaces the selection by three lines joined by single newlines, so that
    either ending becomes [\n]. Each new line starts with ["> "] and has no
    newline inside: a line with a unit that is not white space is the prefix
    followed by the line, a line without one is the prefix alone. Split
    again, the new region has three lines. *)
Theorem prefixLines_three_lines
    (t placeholder l1 l2 l3 : jsstring) (s e : Z) :
  wellFormed (mkArgs t s e) ->
  splitLines (contentOf t s e placeholder) = [l1; l2; l3] ->
  value (prefixLines (lit "> ") placeholder (mkArgs t s e))
    = upTo s t
        ++ (prefixed (lit "> ") l1 ++ [LF] ++ prefixed (lit "> ") l2 ++ [LF]
              ++ prefixed (lit "> ") l3)
        ++ from e t
  /\ Forall (fun l => startsWith (prefixed (lit "> ") l) (lit "> ") = true
                      /\ ~ In LF (prefixed (lit "> ") l)
                      /\ (hasVisible l = true ->
                          prefixed (lit "> ") l = lit "> " ++ l)
                      /\ (hasVisible l = false ->
                          prefixed (lit "> ") l = lit "> "))
       [l1; l2; l3]
  /\ List.length
       (splitLines
          (prefixed (lit "> ") l1 ++ [LF] ++ prefixed (lit "> ") l2 ++ [LF]
             ++ prefixed (lit "> ") l3)) = 3%nat
  /\ (exists e1 e2,
        lineEnding e1 /\ lineEnding e2
        /\ properEnding l1 e1 /\ properEnding l2 e2
        /\ contentOf t s e placeholder = l1 ++ e1 ++ l2 ++ e2 ++ l3).
Proof.
  intros (Ha & Hab & Hb) Hsplit.
  cbn [text selectionStart selectionEnd] in Ha, Hab, Hb.
  destruct (splitLines_splitOf (contentOf t s e placeholder))
    as (_ & Hlf & _ & endings & Hn & Hends & Hre).
  rewrite Hsplit in Hlf, Hn, Hre.
  inversion Hlf as [|? ? N1 Hlf1]; subst.
  inversion Hlf1 as [|? ? N2 Hlf2]; subst.
  inversion Hlf2 as [|? ? N3 _]; subst.
  pose proof (prefixed_quote_no_LF l1 N1) as Q1.
  pose proof (prefixed_quote_no_LF l2 N2) as Q2.
  pose proof (prefixed_quote_no_LF l3 N3) as Q3.
  split; [|split; [|split]].
  - rewrite prefixLines_shape by lia. cbn [value].
    rewrite Hsplit. cbn [List.map join].
    now rewrite !prefixLine_prefixed.
  - assert (P : forall l, ~ In LF (prefixed (lit "> ") l) ->
              startsWith (prefixed (lit "> ") l) (lit "> ") = true
              /\ ~ In LF (prefixed (lit "> ") l)
              /\ (hasVisible l = true -> prefixed (lit "> ") l = lit "> " ++ l)
              /\ (hasVisible l = false -> prefixed (lit "> ") l = lit "> ")).
    { intros l Q. split; [apply prefixed_quote_starts|]. split; [exact Q|].
      unfold prefixed. split; intros ->; reflexivity. }
    repeat constructor; apply P; assumption.
  - destruct (splitLines_splitOf
                (prefixed (lit "> ") l1 ++ [LF] ++ prefixed (lit "> ") l2
                   ++ [LF] ++ prefixed (lit "> ") l3))
      as (_ & _ & L & _).
    rewrite L, !count_occ_app.
    rewrite (proj1 (count_occ_not_In N.eq_dec _ _) Q1).
    rewrite (proj1 (count_occ_not_In N.eq_dec _ _) Q2).
    rewrite (proj1 (count_occ_not_In N.eq_dec _ _) Q3).
    reflexivity.
  - destruct (splitLines_splitExact (contentOf t s e placeholder))
      as (fit & Hfit & Hcut).
    rewrite Hsplit in Hfit, Hcut.
    destruct fit as [|e1 [|e2 [|e3 fit]]]; cbn [endingsFit] in Hfit.
    { discriminate Hfit. }
    { destruct Hfit as [_ H]. discriminate H. }
    2:{ destruct Hfit as (_ & _ & _ & H). contradiction. }
    destruct Hfit as (P1 & P2 & _).
    exists e1, e2.
    split; [now apply (properEnding_lineEnding l1)|].
    split; [now apply (properEnding_lineEnding l2)|].
    split; [assumption|]. split; [assumption|].
    now rewrite <- Hcut.
Qed.

Lemma prefixLines_three_lines_witness :
  value (prefixLines (lit "> ") (lit "Quote text")
           (mkArgs [97; 13; 10; 32; 10; 98]%N 0 6))
  = [62; 32; 97; 10; 62; 32; 10; 62; 32; 98]%N.
Proof.
  transitivity
    (upTo 0 [97; 13; 10; 32; 10; 98]%N
       ++ (prefixed (lit "> ") [97%N] ++ [LF] ++ prefixed (lit "> ") [32%N]
             ++ [LF] ++ prefixed (lit "> ") [98%N])
       ++ from 6 [97; 13; 10; 32; 10; 98]%N); [|reflexivity].
  apply (prefixLines_three_lines [97; 13; 10; 32; 10; 98]%N
           (lit "Quote text") [97%N] [32%N] [98%N] 0 6).
  - repeat split; concrete.
  - reflexivity.
Defined.

(** ** The heading transform *)

Lemma dropHashes_split (k : nat) (s : jsstring) :
  exists j, (j <= k)%nat /\ s = List.repeat HASH j ++ dropHashes k s.
Proof.
  revert s. induction k as [|k IH]; intros s.
  - exists 0%nat. split; [lia|]. now destruct s.
  - destruct s as [|c s]; [exists 0%nat; split; [lia|reflexivity]|].
    simpl. unfold unit_eqb. destruct (N.eqb_spec c HASH) as [->|Hc].
    + destruct (IH s) as (j & Hj & E). exists (S j). split; [lia|].
      simpl. now rewrite <- E.
    + exists 0%nat. split; [lia|reflexivity].
Qed.

(** What the marker pattern removes: at most six number signs and the white
    space after them. *)
Lemma stripHeadingMarker_split (s : jsstring) :
  exists j ws,
    (j <= 6)%nat /\ allWhiteSpace ws = true
    /\ s = List.repeat HASH j ++ ws ++ stripHeadingMarker s.
Proof.
  destruct s as [|c s]; [exists 0%nat, []; repeat split; lia|].
  unfold stripHeadingMarker, unit_eqb.
  destruct (N.eqb_spec c HASH) as [->|Hc].
  - destruct (dropHashes_split 5 s) as (j & Hj & E).
    destruct (trimStart_split (dropHashes 5 s)) as (ws & E' & W & _).
    exists (S j), ws. split; [lia|]. split; [assumption|].
    change (List.repeat HASH (S j)) with (HASH :: List.repeat HASH j).
    now rewrite <- app_comm_cons, <- E', <- E.
  - exists 0%nat, []. repeat split. lia.
Qed.

Lemma first_LF_split (s : jsstring) :
  In LF s -> exists first rest, s = first ++ LF :: rest /\ ~ In LF first.
Proof.
  induction s as [|c s IH]; [contradiction|]. intros H.
  destruct (N.eq_dec c LF) as [->|Hc].
  - exists [], s. split; [reflexivity|intros []].
  - destruct H as [H|H]; [congruence|].
    destruct (IH H) as (first & rest & E & Hno).
    exists (c :: first), rest. split; [simpl; now rewrite E|].
    intros [E'|E']; [congruence|contradiction].
Qed.

Lemma startsWith_HASH_cons (c : N) (s : jsstring) :
  startsWith (c :: s) [HASH] = unit_eqb c HASH.
Proof. unfold startsWith. simpl. apply andb_true_r. Qed.

(** The greedy [#{1,6}]: the number signs removed are all there are, up to
    the bound. *)
Lemma dropHashes_split_max (k : nat) (s : jsstring) :
  exists j,
    (j <= k)%nat /\ s = List.repeat HASH j ++ dropHashes k s
    /\ ((j < k)%nat -> startsWith (dropHashes k s) [HASH] = false).
Proof.
  revert s. induction k as [|k IH]; intros s.
  - exists 0%nat. split; [lia|]. split; [now destruct s|lia].
  - destruct s as [|c s].
    { exists 0%nat. split; [lia|]. split; reflexivity. }
    simpl dropHashes. unfold unit_eqb.
    destruct (N.eqb_spec c HASH) as [->|Hc].
    + destruct (IH s) as (j & Hj & E & M). exists (S j). split; [lia|].
      split; [simpl; now rewrite <- E|]. intros H. apply M. lia.
    + exists 0%nat. split; [lia|]. split; [reflexivity|]. intros _.
      rewrite startsWith_HASH_cons. unfold unit_eqb.
      now apply N.eqb_neq.
Qed.

(** What the marker pattern removes, exactly: nothing when the string does
    not start with a number sign; otherwise all the leading number signs, six
    at most, and all the white space after them. *)
Lemma stripHeadingMarker_split_max (s : jsstring) :
  exists j gap,
    (j <= 6)%nat /\ allWhiteSpace gap = true
    /\ s = List.repeat HASH j ++ gap ++ stripHeadingMarker s
    /\ (j = 0%nat -> gap = [] /\ startsWith s [HASH] = false)
    /\ ((j < 6)%nat ->
        startsWith (gap ++ stripHeadingMarker s) [HASH] = false)
    /\ (gap <> [] ->
        match stripHeadingMarker s with
        | [] => True
        | c :: _ => isWhiteSpace c = false
        end).
Proof.
  destruct s as [|c s].
  { exists 0%nat, []. repeat split; try lia; try reflexivity. }
  unfold stripHeadingMarker, unit_eqb.
  destruct (N.eqb_spec c HASH) as [->|Hc].
  - destruct (dropHashes_split_max 5 s) as (j & Hj & E & M).
    destruct (trimStart_split (dropHashes 5 s)) as (gap & E' & W & Hhead).
    exists (S j), gap. split; [lia|]. split; [assumption|].
    split; [|split; [lia|split]].
    + change (List.repeat HASH (S j)) with (HASH :: List.repeat HASH j).
      now rewrite <- app_comm_cons, <- E', <- E.
    + intros H. rewrite <- E'. apply M. lia.
    + intros _. exact Hhead.
  - exists 0%nat, []. split; [lia|]. split; [reflexivity|].
    split; [reflexivity|].
    assert (H : startsWith (c :: s) [HASH] = false).
    { rewrite startsWith_HASH_cons. unfold unit_eqb. now apply N.eqb_neq. }
    split; [now split|]. split; [intros _; exact H|]. congruence.
Qed.

Lemma trim_visibleEnds (s : jsstring) : visibleEnds (trim s).
Proof.
  destruct (trim_ends s) as [E|((c & body & E & Hc) & (body' & d & E' & Hd))].
  - rewrite E. split.
    + intros c x H. discriminate H.
    + intros x d H. destruct x; discriminate H.
  - split.
    + intros c0 x H. rewrite E in H. now injection H as <- _.
    + intros x d0 H. rewrite E' in H. apply app_inj_tail in H as [_ <-].
      assumption.
Qed.

(** C10, as the code has it. On every well-formed request the selection is,
    in this order: the number signs of a leading marker (all there are, six
    at most; none when the selection does not start with one), a run of
    white space, the content, and a run of white space, the content neither
    starting nor ending with white space. The result carries one ["## "] and
    then the content (or [Heading] when the content is empty) between the
    two separators. A newline of the selection is kept when it lies inside
    that content, and lost when it lies in one of the runs of white space.
    So when the content contains a newline, the marker stands before its
    first line only: the newline and the following lines come after it
    unchanged, with no marker of their own, and the returned selection reads
    back the whole content. *)
Theorem headingTransform_multiline (t : jsstring) (s e : Z) :
  wellFormed (mkArgs t s e) ->
  exists hashes gap content post,
    slice t s e = List.repeat HASH hashes ++ gap ++ content ++ post
    /\ (hashes <= 6)%nat
    /\ (hashes = 0%nat -> startsWith (slice t s e) [HASH] = false)
    /\ ((hashes < 6)%nat ->
        startsWith (gap ++ content ++ post) [HASH] = false)
    /\ allWhiteSpace gap = true /\ allWhiteSpace post = true
    /\ visibleEnds content
    /\ value (headingTransform 2 (mkArgs t s e))
       = upTo s t ++ headingLeadingSep t s
           ++ lit "## " ++ orElse content (lit "Heading")
           ++ headingTrailingSep t e ++ from e t
    /\ (In LF content ->
        exists first rest,
          content = first ++ LF :: rest
          /\ ~ In LF first
          /\ value (headingTransform 2 (mkArgs t s e))
             = upTo s t ++ headingLeadingSep t s
                 ++ lit "## " ++ first ++ [LF] ++ rest
                 ++ headingTrailingSep t e ++ from e t
          /\ slice (value (headingTransform 2 (mkArgs t s e)))
               (resultStart (headingTransform 2 (mkArgs t s e)))
               (resultEnd (headingTransform 2 (mkArgs t s e)))
             = content).
Proof.
  intros (Ha & Hab & Hb).
  cbn [text selectionStart selectionEnd] in Ha, Hab, Hb.
  set (sel := slice t s e).
  set (content := trim (stripHeadingMarker sel)).
  assert (Hbetween : trim (stripHeadingMarker (between s e t)) = content).
  { unfold content, sel. now rewrite (slice_between t s e) by lia. }
  assert (V : value (headingTransform 2 (mkArgs t s e))
              = upTo s t ++ headingLeadingSep t s ++ lit "## "
                  ++ orElse content (lit "Heading")
                  ++ headingTrailingSep t e ++ from e t).
  { rewrite headingTransform_shape by lia. cbn [value]. rewrite Hbetween.
    change (JS.repeat (lit "#") 2 ++ lit " ") with (lit "## ").
    now rewrite <- !app_assoc. }
  destruct (stripHeadingMarker_split_max sel)
    as (j & gap & Hj & W & E & Hzero & Hmax & Hgap).
  destruct (trimStart_split (stripHeadingMarker sel))
    as (pre & Epre & Wpre & Hhead).
  destruct (trimEnd_split (trimStart (stripHeadingMarker sel)))
    as (post & Epost & Wpost).
  fold (trim (stripHeadingMarker sel)) in Epost. fold content in Epost.
  assert (Estrip : stripHeadingMarker sel = pre ++ content ++ post).
  { rewrite Epre at 1. now rewrite Epost at 1. }
  exists j, (gap ++ pre), content, post.
  split; [rewrite E at 1; now rewrite Estrip, <- !app_assoc|].
  split; [assumption|]. split; [intros H; now apply Hzero|].
  split; [intros H; rewrite <- app_assoc, <- Estrip; now apply Hmax|].
  split; [now rewrite allWhiteSpace_app, W, Wpre|].
  split; [assumption|]. split; [apply trim_visibleEnds|].
  split; [exact V|].
  intros Hin.
  assert (Hor : orElse content (lit "Heading") = content).
  { destruct content; [contradiction|reflexivity]. }
  destruct (first_LF_split content Hin) as (first & rest & Ec & Hno).
  exists first, rest. split; [assumption|]. split; [assumption|]. split.
  - rewrite V, Hor, Ec. now rewrite <- !app_assoc.
  - rewrite headingTransform_shape by lia.
    cbn [value resultStart resultEnd]. rewrite Hbetween, Hor.
    change (JS.repeat (lit "#") 2 ++ lit " ") with (lit "## ").
    pose proof (length_upTo t s ltac:(lia)) as Lu.
    set (u := upTo s t) in *. set (f := from e t).
    set (lead := headingLeadingSep t s).
    set (trail := headingTrailingSep t e).
    replace (s + JS.length lead + JS.length (lit "## "))
      with (JS.length u + JS.length (lead ++ lit "## "))
      by (rewrite length_app; lia).
    replace (u ++ (lead ++ lit "## " ++ content ++ trail) ++ f)
      with (u ++ (lead ++ lit "## ") ++ content ++ trail ++ f)
      by (now rewrite <- !app_assoc).
    apply slice_in_markers.
Qed.

Lemma headingTransform_multiline_witness :
  exists hashes gap content post,
    slice (lit "# a" ++ [LF] ++ lit "b ") 0 6
    = List.repeat HASH hashes ++ gap ++ content ++ post
    /\ visibleEnds content
    /\ value (headingTransform 2 (mkArgs (lit "# a" ++ [LF] ++ lit "b ") 0 6))
       = upTo 0 (lit "# a" ++ [LF] ++ lit "b ")
           ++ headingLeadingSep (lit "# a" ++ [LF] ++ lit "b ") 0
           ++ lit "## " ++ orElse content (lit "Heading")
           ++ headingTrailingSep (lit "# a" ++ [LF] ++ lit "b ") 6
           ++ from 6 (lit "# a" ++ [LF] ++ lit "b ").
Proof.
  assert (W : wellFormed (mkArgs (lit "# a" ++ [LF] ++ lit "b ") 0 6))
    by (repeat split; concrete).
  destruct (headingTransform_multiline (lit "# a" ++ [LF] ++ lit "b ") 0 6 W)
    as (hashes & gap & content & post & E & _ & _ & _ & _ & _ & Hv & V & _).
  exists hashes, gap, content, post. auto.
Defined.

(** C10 as stated fails: a newline of the selection is not always kept. The
    selection [#\nfoo] spans two lines, and its newline belongs to the white
    space after the marker: the result is [## foo], with no newline and no
    line after the heading line. *)
Lemma headingTransform_newline_after_marker_lost :
  wellFormed (mkArgs (lit "#" ++ [LF] ++ lit "foo") 0 5)
  /\ In LF (slice (lit "#" ++ [LF] ++ lit "foo") 0 5)
  /\ value (headingTransform 2 (mkArgs (lit "#" ++ [LF] ++ lit "foo") 0 5))
     = lit "## foo"
  /\ ~ In LF
        (value (headingTransform 2 (mkArgs (lit "#" ++ [LF] ++ lit "foo") 0 5))).
Proof.
  split; [repeat split; concrete|].
  split; [apply includes_LF; reflexivity|].
  split; [reflexivity|].
  apply includes_LF_false. reflexivity.
Qed.

(** ** The examples of the specification, evaluated *)

Example heading_at_document_start :
  headingTransform 2 (mkArgs (lit "Titlemore") 0 5)
  = mkResult (lit "## Title" ++ [LF; LF] ++ lit "more") 3 8.
Proof. reflexivity. Qed.

Example code_two_lines_fenced :
  codeTransform (mkArgs (lit "x=1" ++ [LF] ++ lit "y=2") 0 7)
  = mkResult
      ([LF; LF] ++ lit "```" ++ [LF] ++ lit "x=1" ++ [LF] ++ lit "y=2"
         ++ [LF] ++ lit "```" ++ [LF; LF])
      6 13.
Proof. reflexivity. Qed.

Example code_single_line_inline :
  codeTransform (mkArgs (lit "x") 0 1) = mkResult (lit "`x`") 1 2.
Proof. reflexivity. Qed.

Example divider_between_lines :
  dividerTransform (mkArgs (lit "A" ++ [LF] ++ lit "B") 1 1)
  = mkResult (lit "A" ++ [LF; LF] ++ lit "---" ++ [LF] ++ [LF] ++ lit "B") 7 7.
Proof. reflexivity. Qed.

Example quote_keeps_lone_carriage_return :
  splitLines [97; 13; 13; 10; 98]%N = [[97; 13]; [98]]%N.
Proof. reflexivity. Qed.

(** ** The counters of the status bar *)

Section Counters.

Implicit Types (s : jsstring) (g : bool).

Lemma splitSpaces_nonempty g s : splitSpaces g s <> [].
Proof.
  revert g. induction s as [|c s IH]; intros g; simpl; [discriminate|].
  destruct (isWhiteSpace c).
  - destruct g; [apply IH|discriminate].
  - destruct (splitSpaces false s); discriminate.
Qed.

Lemma wordStarts_le_length g s : (wordStarts g s <= List.length s)%nat.
Proof.
  revert g. induction s as [|c s IH]; intros g; simpl; [lia|].
  destruct (isWhiteSpace c).
  - specialize (IH true). lia.
  - specialize (IH false). destruct g; lia.
Qed.

Lemma wordStarts_blank g s :
  allWhiteSpace s = true -> wordStarts g s = 0%nat.
Proof.
  revert g. induction s as [|c s IH]; intros g; [reflexivity|].
  unfold allWhiteSpace in *. simpl. intros H.
  apply andb_true_iff in H as [Hc Hs]. rewrite Hc. now apply IH.
Qed.

Lemma wordStarts_leading gap s :
  allWhiteSpace gap = true ->
  wordStarts true (gap ++ s) = wordStarts true s.
Proof.
  induction gap as [|c gap IH]; [reflexivity|].
  unfold allWhiteSpace in *. simpl. intros H.
  apply andb_true_iff in H as [Hc Hg]. rewrite Hc. now apply IH.
Qed.

Lemma wordStarts_trailing g s gap :
  allWhiteSpace gap = true -> wordStarts g (s ++ gap) = wordStarts g s.
Proof.
  intros H. revert g. induction s as [|c s IH]; intros g; simpl.
  - now apply wordStarts_blank.
  - destruct (isWhiteSpace c); now rewrite IH.
Qed.


(** On a string that ends with a visible unit, the pieces of the split are
    the words, plus an empty first piece when the scan starts at white
    space that is not already inside a run. *)
Lemma splitSpaces_length g body d :
  isWhiteSpace d = false ->
  List.length (splitSpaces g (body ++ [d]))
  = (wordStarts g (body ++ [d]) + if g then 0 else 1)%nat.
Proof.
  intros Hd. revert g. induction body as [|c body IH]; intros g; simpl.
  - rewrite Hd. simpl. destruct g; reflexivity.
  - destruct (isWhiteSpace c).
    + destruct g; simpl; rewrite IH; lia.
    + rewrite length_consHead by apply splitSpaces_nonempty.
      rewrite IH. destruct g; lia.
Qed.

Lemma stats_words_of_trimmed s :
  wordCount (stats s) = Z.of_nat (wordStarts true (trim s)).
Proof.
  unfold stats. cbn [wordCount].
  destruct (trim_ends s) as [E|((c & body & E & Hc) & (body' & d & E' & Hd))].
  - now rewrite E.
  - rewrite E at 1. rewrite E'. f_equal.
    rewrite splitSpaces_length by assumption.
    rewrite <- E', E. simpl. rewrite Hc. lia.
Qed.

Lemma wordStarts_trim s : wordStarts true (trim s) = wordStarts true s.
Proof.
  destruct (trim_split s) as (pre & post & E & Wpre & Wpost).
  rewrite E at 2.
  rewrite wordStarts_leading by assumption.
  now rewrite wordStarts_trailing.
Qed.

End Counters.

(** X1. The word counter shows the number of word starts of the draft: the
    units that are not white space and stand first or right after white
    space. *)
Theorem stats_wordCount (draft : jsstring) :
  wordCount (stats draft) = Z.of_nat (wordStarts true draft).
Proof.
  now rewrite stats_words_of_trimmed, wordStarts_trim.
Qed.

Lemma stats_lineCount_facts (draft : jsstring) :
  lineCount (stats draft) = 1 + Z.of_nat (count_occ N.eq_dec draft LF)
  /\ charCount (stats draft) = Z.of_nat (List.length draft)
  /\ lineCount (stats []) = 1
  /\ lineCount (stats (draft ++ [CR])) = lineCount (stats draft).
Proof.
  assert (L : forall d,
             lineCount (stats d) = 1 + Z.of_nat (count_occ N.eq_dec d LF)).
  { intros d. unfold stats. cbn [lineCount].
    destruct (splitLines_splitOf d) as (_ & _ & Hlen & _).
    rewrite Hlen. lia. }
  split; [apply L|]. split; [reflexivity|]. split; [reflexivity|].
  rewrite !L, count_occ_app. cbn [count_occ].
  destruct (N.eq_dec CR LF); [discriminate|]. lia.
Qed.

(** X2. The line counter shows one more than the number of line feeds of the
    draft, and the character counter its number of code units; an empty
    draft has one line, and a carriage return alone does not start a line. *)
Theorem stats_lineCount (draft : jsstring) :
  lineCount (stats draft) = 1 + Z.of_nat (count_occ N.eq_dec draft LF)
  /\ charCount (stats draft) = Z.of_nat (List.length draft)
  /\ lineCount (stats []) = 1
  /\ lineCount (stats (draft ++ [CR])) = lineCount (stats draft).
Proof. exact (stats_lineCount_facts draft). Qed.

(** X3. The counters are bounded by the size of the draft: there are no more
    words than code units, and no more lines than code units plus one. *)
Theorem stats_bounds (draft : jsstring) :
  0 <= wordCount (stats draft) <= charCount (stats draft)
  /\ 1 <= lineCount (stats draft) <= charCount (stats draft) + 1.
Proof.
  destruct (stats_lineCount_facts draft) as (L & C & _).
  rewrite stats_words_of_trimmed, wordStarts_trim, L, C.
  pose proof (wordStarts_le_length true draft).
  pose proof (count_occ_bound N.eq_dec LF draft). lia.
Qed.


(** ** The prefix-lines transform on any number of lines *)

Lemma startsWith_app (p x : jsstring) : startsWith (p ++ x) p = true.
Proof.
  unfold startsWith.
  replace (List.length p) with (List.length p + 0)%nat by lia.
  rewrite firstn_app_2, app_nil_r. apply eqb_refl.
Qed.

Lemma startsWith_refl (p : jsstring) : startsWith p p = true.
Proof. rewrite <- (app_nil_r p) at 1. apply startsWith_app. Qed.

Lemma prefixed_starts (prefix line : jsstring) :
  startsWith (prefixed prefix line) prefix = true.
Proof.
  unfold prefixed. destruct (hasVisible line);
    [apply startsWith_app|apply startsWith_refl].
Qed.

Lemma prefixed_no_LF (prefix line : jsstring) :
  ~ In LF prefix -> ~ In LF line -> ~ In LF (prefixed prefix line).
Proof.
  intros Hp Hl. unfold prefixed. destruct (hasVisible line); [|assumption].
  intros H. apply in_app_or in H. tauto.
Qed.

(** Pieces without line feeds, joined by line feeds, hold one line feed less
    than there are pieces. *)
Lemma count_LF_join (pieces : list jsstring) :
  Forall (fun p => ~ In LF p) pieces ->
  count_occ N.eq_dec (join [LF] pieces) LF = (List.length pieces - 1)%nat.
Proof.
  induction 1 as [|p ps Hp Hps IH]; [reflexivity|].
  destruct ps as [|q ps].
  - simpl. now apply count_occ_not_In.
  - change (join [LF] (p :: q :: ps)) with (p ++ [LF] ++ join [LF] (q :: ps)).
    rewrite !count_occ_app, IH.
    rewrite (proj1 (count_occ_not_In N.eq_dec p LF) Hp).
    cbn [count_occ]. destruct (N.eq_dec LF LF); [|congruence].
    simpl. lia.
Qed.

Lemma prefixLines_all_lines_facts
    (prefix placeholder t : jsstring) (s e : Z) :
  wellFormed (mkArgs t s e) ->
  ~ In LF prefix ->
  value (prefixLines prefix placeholder (mkArgs t s e))
    = upTo s t
        ++ join [LF]
             (List.map (prefixed prefix)
                (splitLines (contentOf t s e placeholder)))
        ++ from e t
  /\ List.length
       (splitLines
          (join [LF]
             (List.map (prefixed prefix)
                (splitLines (contentOf t s e placeholder)))))
     = List.length (splitLines (contentOf t s e placeholder))
  /\ Forall (fun out => startsWith out prefix = true /\ ~ In LF out)
       (List.map (prefixed prefix)
          (splitLines (contentOf t s e placeholder)))
  /\ resultStart (prefixLines prefix placeholder (mkArgs t s e))
     = resultEnd (prefixLines prefix placeholder (mkArgs t s e))
  /\ from (resultEnd (prefixLines prefix placeholder (mkArgs t s e)))
       (value (prefixLines prefix placeholder (mkArgs t s e)))
     = from e t.
Proof.
  intros (Ha & Hab & Hb) Hp.
  cbn [text selectionStart selectionEnd] in Ha, Hab, Hb.
  set (lines := splitLines (contentOf t s e placeholder)).
  destruct (splitLines_splitOf (contentOf t s e placeholder))
    as (Hne & Hlf & _). fold lines in Hne, Hlf.
  assert (Hout : Forall (fun out => startsWith out prefix = true
                                    /\ ~ In LF out)
                   (List.map (prefixed prefix) lines)).
  { apply Forall_map. eapply Forall_impl; [|exact Hlf].
    intros l Hl. split; [apply prefixed_starts|now apply prefixed_no_LF]. }
  assert (V : prefixLines prefix placeholder (mkArgs t s e)
              = mkResult
                  (upTo s t ++ join [LF] (List.map (prefixed prefix) lines)
                     ++ from e t)
                  (s + JS.length (join [LF] (List.map (prefixed prefix) lines)))
                  (s + JS.length (join [LF] (List.map (prefixed prefix) lines)))).
  { rewrite prefixLines_shape by lia. cbv zeta. fold lines.
    replace (List.map (prefixLine prefix) lines)
      with (List.map (prefixed prefix) lines); [reflexivity|].
    apply map_ext. intros l. symmetry. apply prefixLine_prefixed. }
  rewrite V. cbn [value resultStart resultEnd].
  split; [reflexivity|]. split; [|split; [exact Hout|split; [reflexivity|]]].
  - destruct (splitLines_splitOf
                (join [LF] (List.map (prefixed prefix) lines)))
      as (_ & _ & L & _).
    rewrite L, count_LF_join.
    + rewrite length_map. destruct lines; [congruence|simpl; lia].
    + eapply Forall_impl; [|exact Hout]. intros out [_ H]. exact H.
  - pose proof (length_upTo t s ltac:(lia)) as Lu.
    set (u := upTo s t) in *. set (f := from e t).
    set (m := join [LF] (List.map (prefixed prefix) lines)).
    rewrite <- Lu, <- length_app, app_assoc. apply from_app.
Qed.

(** X5. For a prefix without a newline (["> "], ["- [ ] "]) and every
    well-formed request, prefixLines replaces the selection by as many lines
    as the content has: each line of the content, in order, with the prefix
    in front, or the prefix alone for a line of white space, joined by single
    newlines. Every new line starts with the prefix, and the returned caret
    stands right after the new lines, before the kept rest of the text. *)
Theorem prefixLines_all_lines
    (prefix placeholder t : jsstring) (s e : Z) :
  wellFormed (mkArgs t s e) ->
  ~ In LF prefix ->
  value (prefixLines prefix placeholder (mkArgs t s e))
    = upTo s t
        ++ join [LF]
             (List.map (prefixed prefix)
                (splitLines (contentOf t s e placeholder)))
        ++ from e t
  /\ List.length
       (splitLines
          (join [LF]
             (List.map (prefixed prefix)
                (splitLines (contentOf t s e placeholder)))))
     = List.length (splitLines (contentOf t s e placeholder))
  /\ Forall (fun out => startsWith out prefix = true /\ ~ In LF out)
       (List.map (prefixed prefix)
          (splitLines (contentOf t s e placeholder)))
  /\ resultStart (prefixLines prefix placeholder (mkArgs t s e))
     = resultEnd (prefixLines prefix placeholder (mkArgs t s e))
  /\ from (resultEnd (prefixLines prefix placeholder (mkArgs t s e)))
       (value (prefixLines prefix placeholder (mkArgs t s e)))
     = from e t.
Proof. exact (prefixLines_all_lines_facts prefix placeholder t s e). Qed.

Lemma prefixLines_all_lines_witness :
  value (prefixLines (lit "- [ ] ") (lit "Task detail")
           (mkArgs (lit "milk" ++ [LF] ++ lit "eggs") 0 9))
  = lit "- [ ] milk" ++ [LF] ++ lit "- [ ] eggs".
Proof.
  transitivity
    (upTo 0 (lit "milk" ++ [LF] ++ lit "eggs")
       ++ join [LF]
            (List.map (prefixed (lit "- [ ] "))
               (splitLines
                  (contentOf (lit "milk" ++ [LF] ++ lit "eggs") 0 9
                     (lit "Task detail"))))
       ++ from 9 (lit "milk" ++ [LF] ++ lit "eggs")); [|reflexivity].
  apply (prefixLines_all_lines (lit "- [ ] ") (lit "Task detail")
           (lit "milk" ++ [LF] ++ lit "eggs") 0 9).
  - repeat split; concrete.
  - apply includes_LF_false. reflexivity.
Defined.

(** ** More on the heading transform *)

Lemma headingTransform_reads_content (level : nat) (t : jsstring) (s e : Z) :
  0 <= s -> s <= e -> e <= JS.length t ->
  value (headingTransform level (mkArgs t s e))
    = upTo s t ++ headingLeadingSep t s
        ++ (JS.repeat (lit "#") level ++ lit " ")
        ++ headingContent t s e
        ++ headingTrailingSep t e ++ from e t
  /\ resultStart (headingTransform level (mkArgs t s e))
     = s + JS.length (headingLeadingSep t s) + Z.of_nat level + 1
  /\ resultEnd (headingTransform level (mkArgs t s e))
     = resultStart (headingTransform level (mkArgs t s e))
       + JS.length (headingContent t s e)
  /\ slice (value (headingTransform level (mkArgs t s e)))
       (resultStart (headingTransform level (mkArgs t s e)))
       (resultEnd (headingTransform level (mkArgs t s e)))
     = headingContent t s e.
Proof.
  intros Ha Hab Hb. unfold headingContent.
  rewrite headingTransform_shape by lia.
  cbn [value resultStart resultEnd].
  rewrite (slice_between t s e) by lia.
  set (content := orElse _ _).
  assert (Lp : JS.length (JS.repeat (lit "#") level ++ lit " ")
               = Z.of_nat level + 1).
  { rewrite length_app. change (JS.length (lit " ")) with 1. f_equal.
    clear. induction level as [|n IH]; [reflexivity|].
    change (JS.repeat (lit "#") (S n)) with (lit "#" ++ JS.repeat (lit "#") n).
    rewrite length_app, IH. change (JS.length (lit "#")) with 1. lia. }
  split; [now rewrite <- !app_assoc|].
  split; [lia|]. split; [lia|].
  pose proof (length_upTo t s ltac:(lia)) as Lu.
  set (u := upTo s t) in *. set (f := from e t).
  set (lead := headingLeadingSep t s). set (trail := headingTrailingSep t e).
  set (p := JS.repeat (lit "#") level ++ lit " ") in *.
  replace (s + JS.length lead + JS.length p)
    with (JS.length u + JS.length (lead ++ p))
    by (rewrite length_app; lia).
  replace (u ++ (lead ++ p ++ content ++ trail) ++ f)
    with (u ++ (lead ++ p) ++ content ++ trail ++ f)
    by (now rewrite <- !app_assoc).
  apply slice_in_markers.
Qed.

Lemma headingTransform_content_trimmed_facts
    (level : nat) (t : jsstring) (s e : Z) :
  wellFormed (mkArgs t s e) ->
  slice (value (headingTransform level (mkArgs t s e)))
    (resultStart (headingTransform level (mkArgs t s e)))
    (resultEnd (headingTransform level (mkArgs t s e)))
  = headingContent t s e
  /\ resultStart (headingTransform level (mkArgs t s e))
     < resultEnd (headingTransform level (mkArgs t s e))
  /\ trim (headingContent t s e) = headingContent t s e
  /\ (allWhiteSpace (stripHeadingMarker (slice t s e)) = true ->
      headingContent t s e = lit "Heading").
Proof.
  intros (Ha & Hab & Hb).
  cbn [text selectionStart selectionEnd] in Ha, Hab, Hb.
  destruct (headingTransform_reads_content level t s e Ha Hab Hb)
    as (_ & _ & E & R).
  split; [exact R|]. rewrite E. unfold headingContent.
  split; [|split].
  - assert (0 < JS.length
                  (orElse (trim (stripHeadingMarker (slice t s e)))
                     (lit "Heading"))); [|lia].
    destruct (trim (stripHeadingMarker (slice t s e))); reflexivity.
  - destruct (trim (stripHeadingMarker (slice t s e))) eqn:T;
      [reflexivity|].
    cbn [orElse]. rewrite <- T. apply trim_idempotent.
  - intros W. apply trim_nil_iff in W. now rewrite W.
Qed.

(** X6. For every level and every well-formed request, the heading's
    returned selection reads back the heading text, and that text is never
    empty and never starts or ends with white space: an empty, blank or
    marker-only selection gives the placeholder [Heading]. *)
Theorem headingTransform_content_trimmed
    (level : nat) (t : jsstring) (s e : Z) :
  wellFormed (mkArgs t s e) ->
  slice (value (headingTransform level (mkArgs t s e)))
    (resultStart (headingTransform level (mkArgs t s e)))
    (resultEnd (headingTransform level (mkArgs t s e)))
  = headingContent t s e
  /\ resultStart (headingTransform level (mkArgs t s e))
     < resultEnd (headingTransform level (mkArgs t s e))
  /\ trim (headingContent t s e) = headingContent t s e
  /\ (allWhiteSpace (stripHeadingMarker (slice t s e)) = true ->
      headingContent t s e = lit "Heading").
Proof. exact (headingTransform_content_trimmed_facts level t s e). Qed.

Lemma headingTransform_content_trimmed_witness :
  slice (value (headingTransform 2 (mkArgs (lit "a ###  b") 2 7)))
    (resultStart (headingTransform 2 (mkArgs (lit "a ###  b") 2 7)))
    (resultEnd (headingTransform 2 (mkArgs (lit "a ###  b") 2 7)))
  = lit "Heading".
Proof.
  transitivity (headingContent (lit "a ###  b") 2 7); [|reflexivity].
  assert (W : wellFormed (mkArgs (lit "a ###  b") 2 7))
    by (repeat split; concrete).
  exact (proj1 (headingTransform_content_trimmed 2 (lit "a ###  b") 2 7 W)).
Defined.

Lemma dropHashes_repeat (n j : nat) (x : jsstring) :
  (j <= n)%nat ->
  match x with
  | c :: _ => unit_eqb c HASH = false
  | [] => True
  end ->
  dropHashes n (List.repeat HASH j ++ x) = x.
Proof.
  revert n. induction j as [|j IH]; intros n Hj Hx.
  - simpl. destruct n; [reflexivity|].
    destruct x as [|c x]; [reflexivity|]. simpl. now rewrite Hx.
  - destruct n as [|n]; [lia|]. simpl. apply IH; [lia|assumption].
Qed.

Lemma isWhiteSpace_not_HASH (c : N) :
  isWhiteSpace c = true -> unit_eqb c HASH = false.
Proof.
  unfold unit_eqb. destruct (N.eqb_spec c HASH) as [->|]; [|reflexivity].
  discriminate.
Qed.

(** X7. Applied to a selection that already is a heading line (one to six
    number signs, white space, and a text that is trimmed, not empty and
    does not start with a number sign), the heading transform replaces the
    old marker by the new one instead of stacking markers. *)
Theorem headingTransform_relevel
    (level hashes : nat) (gap body t : jsstring) (s e : Z) :
  wellFormed (mkArgs t s e) ->
  slice t s e = List.repeat HASH hashes ++ gap ++ body ->
  (1 <= hashes <= 6)%nat ->
  allWhiteSpace gap = true ->
  trim body = body -> body <> [] -> startsWith body [HASH] = false ->
  value (headingTransform level (mkArgs t s e))
  = upTo s t ++ headingLeadingSep t s
      ++ (JS.repeat (lit "#") level ++ lit " ") ++ body
      ++ headingTrailingSep t e ++ from e t.
Proof.
  intros (Ha & Hab & Hb) Hsel Hk Hgap Htrim Hne Hhash.
  cbn [text selectionStart selectionEnd] in Ha, Hab, Hb.
  destruct (headingTransform_reads_content level t s e Ha Hab Hb) as (V & _).
  rewrite V. unfold headingContent.
  assert (Hbody : exists c rest, body = c :: rest
                   /\ isWhiteSpace c = false /\ unit_eqb c HASH = false).
  { destruct (trim_ends body) as [E|((c & rest & E & Hc) & _)];
      rewrite Htrim in E; [contradiction|].
    exists c, rest. split; [assumption|]. split; [assumption|].
    rewrite E in Hhash. unfold startsWith in Hhash. simpl in Hhash.
    now rewrite andb_true_r in Hhash. }
  destruct Hbody as (c & rest & Eb & Hc & Hnh).
  assert (Hstrip : stripHeadingMarker (slice t s e) = body).
  { rewrite Hsel. destruct hashes as [|j]; [lia|].
    change (List.repeat HASH (S j) ++ gap ++ body)
      with (HASH :: (List.repeat HASH j ++ gap ++ body)).
    unfold stripHeadingMarker.
    replace (unit_eqb HASH HASH) with true by reflexivity.
    rewrite dropHashes_repeat; [|lia|].
    - rewrite trimStart_skips by assumption.
      rewrite Eb. now apply trimStart_head_visible.
    - destruct gap as [|g gap]; simpl.
      + now rewrite Eb.
      + apply isWhiteSpace_not_HASH. unfold allWhiteSpace in Hgap.
        simpl in Hgap. now apply andb_true_iff in Hgap as [? _]. }
  rewrite Hstrip, Htrim. destruct body; [contradiction|reflexivity].
Qed.

Lemma headingTransform_relevel_witness :
  value (headingTransform 2 (mkArgs (lit "### Title") 0 9)) = lit "## Title".
Proof.
  transitivity
    (upTo 0 (lit "### Title") ++ headingLeadingSep (lit "### Title") 0
       ++ (JS.repeat (lit "#") 2 ++ lit " ") ++ lit "Title"
       ++ headingTrailingSep (lit "### Title") 9 ++ from 9 (lit "### Title"));
    [|reflexivity].
  apply (headingTransform_relevel 2 3 (lit " ") (lit "Title")
           (lit "### Title") 0 9).
  - repeat split; concrete.
  - reflexivity.
  - split; lia.
  - reflexivity.
  - reflexivity.
  - discriminate.
  - reflexivity.
Defined.

Lemma slice_parts (P C Q : jsstring) :
  slice (P ++ C ++ Q) 0 (JS.length P) = P
  /\ sliceFrom (P ++ C ++ Q) (JS.length P + JS.length C) = Q
  /\ slice (P ++ C ++ Q) (JS.length P) (JS.length P + JS.length C) = C.
Proof.
  pose proof (length_nonneg P). pose proof (length_nonneg C).
  pose proof (length_nonneg Q).
  split; [|split].
  - rewrite slice_prefix by (rewrite !length_app; lia). apply upTo_app.
  - rewrite sliceFrom_suffix by (rewrite !length_app; lia).
    rewrite app_assoc, <- length_app. apply from_app.
  - apply slice_middle.
Qed.

Lemma endsWith_snoc (x : jsstring) (c : N) :
  endsWith (x ++ [c]) [LF] = unit_eqb c LF.
Proof.
  unfold endsWith. rewrite List.length_app. simpl List.length.
  replace (1 <=? List.length x + 1)%nat with true
    by (symmetry; apply Nat.leb_le; lia).
  replace (List.length x + 1 - 1)%nat with (List.length x) by lia.
  rewrite skipn_app, skipn_all, Nat.sub_diag. simpl.
  now rewrite andb_true_r.
Qed.

(** X8. The heading transform is not idempotent. Applied to its own result
    with the selection that result returned (the heading text, which comes
    right after the marker's space), it takes that text for a new block: the
    first marker stays behind on a line of its own, followed by a blank line,
    a second marker and the text. *)
Theorem headingTransform_twice (level : nat) (t : jsstring) (s e : Z) :
  wellFormed (mkArgs t s e) ->
  value (applyTwice (headingTransform level) (mkArgs t s e))
  = upTo s t ++ headingLeadingSep t s
      ++ (JS.repeat (lit "#") level ++ lit " ")
      ++ [LF; LF]
      ++ (JS.repeat (lit "#") level ++ lit " ")
      ++ orElse (trim (stripHeadingMarker (headingContent t s e)))
           (lit "Heading")
      ++ headingTrailingSep t e ++ from e t
  /\ (startsWith (headingContent t s e) [HASH] = false ->
      value (applyTwice (headingTransform level) (mkArgs t s e))
      = upTo s t ++ headingLeadingSep t s
          ++ (JS.repeat (lit "#") level ++ lit " ")
          ++ [LF; LF]
          ++ (JS.repeat (lit "#") level ++ lit " ")
          ++ headingContent t s e
          ++ headingTrailingSep t e ++ from e t)
  /\ value (applyTwice (headingTransform level) (mkArgs t s e))
     <> value (headingTransform level (mkArgs t s e)).
Proof.
  intros Hwf. pose proof Hwf as (Ha & Hab & Hb).
  cbn [text selectionStart selectionEnd] in Ha, Hab, Hb.
  destruct (headingTransform_reads_content level t s e Ha Hab Hb)
    as (V & S1 & E1 & _).
  set (marker := JS.repeat (lit "#") level ++ lit " ") in *.
  set (content := headingContent t s e) in *.
  set (u := upTo s t) in *. set (f := from e t) in *.
  set (lead := headingLeadingSep t s) in *.
  set (trail := headingTrailingSep t e) in *.
  pose proof (length_upTo t s ltac:(lia)) as Lu. fold u in Lu.
  assert (Lm : JS.length marker = Z.of_nat level + 1).
  { unfold marker. rewrite length_app. change (JS.length (lit " ")) with 1.
    f_equal. clear. induction level as [|n IH]; [reflexivity|].
    change (JS.repeat (lit "#") (S n)) with (lit "#" ++ JS.repeat (lit "#") n).
    rewrite length_app, IH. change (JS.length (lit "#")) with 1. lia. }
  set (P := u ++ lead ++ marker).
  set (Q := trail ++ f).
  assert (LP : JS.length P = s + JS.length lead + Z.of_nat level + 1).
  { unfold P. rewrite !length_app. lia. }
  assert (V' : value (headingTransform level (mkArgs t s e))
               = P ++ content ++ Q).
  { rewrite V. unfold P, Q. now rewrite <- !app_assoc. }
  assert (Plast : exists x, P = x ++ [32%N]).
  { exists (u ++ lead ++ JS.repeat (lit "#") level).
    unfold P, marker. now rewrite <- !app_assoc. }
  assert (Main : value (applyTwice (headingTransform level) (mkArgs t s e))
                 = P ++ [LF; LF] ++ marker
                     ++ orElse (trim (stripHeadingMarker content))
                          (lit "Heading") ++ Q).
  { unfold applyTwice. cbv zeta. rewrite E1, S1, V', <- LP.
    destruct (slice_parts P content Q) as (B & A & C).
    unfold headingTransform. cbn [text selectionStart selectionEnd value].
    rewrite B, A, C. fold marker.
    destruct Plast as (x & EP).
    assert (NL : (JS.length P =? 0) || endsWith P [LF] = false).
    { rewrite EP, endsWith_snoc, length_app.
      change (JS.length [32%N]) with 1. pose proof (length_nonneg x).
      replace (JS.length x + 1 =? 0) with false
        by (symmetry; apply Z.eqb_neq; lia).
      reflexivity. }
    assert (NT : (JS.length P + JS.length content
                    =? JS.length (P ++ content ++ Q))
                 || startsWith Q [LF] = true).
    { unfold Q, trail, headingTrailingSep.
      destruct ((e =? JS.length t) || isLF (unitAt t e)) eqn:D.
      - apply orb_true_iff in D as [D|D].
        + apply Z.eqb_eq in D. apply orb_true_iff. left.
          assert (F : f = []).
          { apply length_zero_nil. unfold f. rewrite length_from by lia. lia. }
          rewrite F. cbn [app]. rewrite !length_app, length_nil.
          apply Z.eqb_eq. lia.
        + apply orb_true_iff. right. simpl. unfold f.
          now rewrite startsWith_LF_from by lia.
      - apply orb_true_iff. right. reflexivity. }
    rewrite NL, NT. now rewrite <- !app_assoc. }
  assert (Full : P ++ [LF; LF] ++ marker
                   ++ orElse (trim (stripHeadingMarker content))
                        (lit "Heading") ++ Q
                 = u ++ lead ++ marker ++ [LF; LF] ++ marker
                     ++ orElse (trim (stripHeadingMarker content))
                          (lit "Heading") ++ trail ++ f).
  { unfold P, Q. now rewrite <- !app_assoc. }
  split; [now rewrite Main, Full|]. split.
  - intros Hh. rewrite Main, Full.
    destruct (headingTransform_content_trimmed_facts level t s e Hwf)
      as (_ & _ & T & _). fold content in T.
    assert (Hstrip : stripHeadingMarker content = content).
    { destruct content as [|c rest]; [reflexivity|].
      unfold startsWith in Hh. simpl in Hh. rewrite andb_true_r in Hh.
      unfold stripHeadingMarker. now rewrite Hh. }
    rewrite Hstrip, T.
    assert (Hne : content <> []).
    { unfold content, headingContent.
      destruct (trim (stripHeadingMarker (slice t s e))); discriminate. }
    destruct content; [contradiction|reflexivity].
  - rewrite Main, V'. intros E. apply app_inv_head in E.
    destruct (headingTransform_content_trimmed_facts level t s e Hwf)
      as (_ & _ & T & _). fold content in T.
    destruct (trim_ends content) as [N|((c & rest & N & Hc) & _)];
      rewrite T in N.
    + unfold content, headingContent in N.
      destruct (trim (stripHeadingMarker (slice t s e))); discriminate N.
    + rewrite N in E. injection E as E _. subst c. discriminate Hc.
Qed.

Lemma headingTransform_twice_witness :
  value (applyTwice (headingTransform 2) (mkArgs (lit "Title") 0 5))
  = lit "## " ++ [LF; LF] ++ lit "## Title".
Proof.
  assert (W : wellFormed (mkArgs (lit "Title") 0 5))
    by (repeat split; concrete).
  transitivity
    (upTo 0 (lit "Title") ++ headingLeadingSep (lit "Title") 0
       ++ (JS.repeat (lit "#") 2 ++ lit " ") ++ [LF; LF]
       ++ (JS.repeat (lit "#") 2 ++ lit " ")
       ++ orElse (trim (stripHeadingMarker (headingContent (lit "Title") 0 5)))
            (lit "Heading")
       ++ headingTrailingSep (lit "Title") 5 ++ from 5 (lit "Title"));
    [|reflexivity].
  exact (proj1 (headingTransform_twice 2 (lit "Title") 0 5 W)).
Defined.

(** ** Requests that are not well formed *)

Section AnyOffsets.

Lemma length_slice_prefix (t : jsstring) (k : Z) :
  0 <= k <= JS.length t -> JS.length (slice t 0 k) = k.
Proof. intros Hk. rewrite slice_prefix by lia. now apply length_upTo. Qed.

Ltac sizes :=
  unfold validSelection; cbn [value resultStart resultEnd];
  rewrite ?length_app;
  repeat match goal with
         | |- context [JS.length ?x] =>
             lazymatch goal with
             | _ : 0 <= JS.length x |- _ => fail
             | _ => pose proof (length_nonneg x)
             end
         end;
  try lia.

Lemma block_transforms_valid_for_any_offsets_facts
    (level : nat) (args : TransformArgs) :
  validSelection (headingTransform level args)
  /\ validSelection (dividerTransform args)
  /\ (slice (text args) (selectionStart args) (selectionEnd args) = [] ->
      validSelection (codeTransform args)).
Proof.
  split; [|split].
  - unfold headingTransform. cbv zeta. sizes.
  - unfold dividerTransform. cbv zeta. sizes.
  - intros E. unfold codeTransform. cbv zeta. rewrite E.
    change (JS.length [] =? 0) with true. rewrite orb_true_r.
    cbv iota. sizes.
    change (JS.length (lit "```")) with 3 in *.
    change (JS.length [LF]) with 1 in *. lia.
Qed.

(** X9. The heading, the divider and the fenced code block compute the
    returned offsets from the length of the text they kept in front, so the
    returned selection lies inside the returned value for all integer
    offsets, also when they are out of range or in the wrong order. *)
Theorem block_transforms_valid_for_any_offsets
    (level : nat) (args : TransformArgs) :
  validSelection (headingTransform level args)
  /\ validSelection (dividerTransform args)
  /\ (slice (text args) (selectionStart args) (selectionEnd args) = [] ->
      validSelection (codeTransform args)).
Proof. exact (block_transforms_valid_for_any_offsets_facts level args). Qed.

(** X10. For every action of the registry the returned selection lies inside
    the returned value as soon as [selectionStart] is an offset into the
    text; [selectionEnd] may be anything. *)
Theorem registry_selection_valid_any_end
    (action : FormattingAction) (args : TransformArgs) :
  In action formattingActions ->
  0 <= selectionStart args <= JS.length (text args) ->
  validSelection (transform action args).
Proof.
  intros Hin Hs. destruct args as [t s e].
  cbn [text selectionStart selectionEnd] in Hs.
  pose proof (length_slice_prefix t s Hs) as Lb.
  assert (Hwrap : forall b a p, validSelection (wrapSelection b a p (mkArgs t s e))).
  { intros b a p. unfold wrapSelection. cbv zeta.
    cbn [text selectionStart selectionEnd]. sizes. }
  assert (Hpre : forall p ph, validSelection (prefixLines p ph (mkArgs t s e))).
  { intros p ph. unfold prefixLines. cbv zeta.
    cbn [text selectionStart selectionEnd]. sizes. }
  assert (Hcode : validSelection (codeTransform (mkArgs t s e))).
  { unfold codeTransform. cbv zeta.
    cbn [text selectionStart selectionEnd].
    destruct (includes _ [LF] || _).
    - sizes. change (JS.length (lit "```")) with 3 in *.
      change (JS.length [LF]) with 1 in *. lia.
    - sizes. change (JS.length (lit "`")) with 1 in *. lia. }
  unfold formattingActions in Hin.
  repeat (destruct Hin as [<- | Hin]); try contradiction; cbn [transform];
    auto; apply (block_transforms_valid_for_any_offsets_facts 2).
Qed.

Lemma registry_selection_valid_any_end_witness :
  validSelection
    (wrapSelection (lit "**") (lit "**") (lit "bold text")
       (mkArgs (lit "abc") 2 (-7))).
Proof.
  apply (registry_selection_valid_any_end
           (mkAction (lit "bold") (lit "Bold")
              (lit "Bold (" ++ CMD ++ lit "/Ctrl + B)")
              (wrapSelection (lit "**") (lit "**") (lit "bold text")))
           (mkArgs (lit "abc") 2 (-7))).
  - left. reflexivity.
  - split; concrete.
Defined.

End AnyOffsets.

(** ** What the registered actions leave selected *)

Lemma contentOf_nonempty (t placeholder : jsstring) (a b : Z) :
  placeholder <> [] -> 0 < JS.length (contentOf t a b placeholder).
Proof.
  intros Hp. unfold contentOf. destruct (between a b t) as [|c sel].
  - destruct placeholder; [contradiction|]. unfold JS.length. simpl. lia.
  - unfold JS.length. simpl. lia.
Qed.

Lemma from_after_insertion (t middle : jsstring) (s e : Z) :
  0 <= s -> s <= JS.length t ->
  from (s + JS.length middle) (upTo s t ++ middle ++ from e t) = from e t.
Proof.
  intros Hs Hl. pose proof (length_upTo t s ltac:(lia)) as Lu.
  set (u := upTo s t) in *. set (f := from e t).
  rewrite <- Lu, <- length_app, app_assoc. apply from_app.
Qed.

(** X11. On a well-formed request bold, italic, heading and code return a
    selection that is not empty (the wrapped text, the heading text or the
    code, ready to be typed over), while quote, todo and divider return a
    caret, and that caret stands right after what was inserted: from it on,
    the returned value is the text that followed the selection. *)
Theorem registry_selection_kind
    (action : FormattingAction) (args : TransformArgs) :
  In action formattingActions ->
  wellFormed args ->
  (In (id action) [lit "bold"; lit "italic"; lit "heading"; lit "code"] ->
   resultStart (transform action args) < resultEnd (transform action args))
  /\ (In (id action) [lit "quote"; lit "todo"; lit "divider"] ->
      resultStart (transform action args) = resultEnd (transform action args)
      /\ from (resultEnd (transform action args))
           (value (transform action args))
         = from (selectionEnd args) (text args)).
Proof.
  intros Hin Hwf. destruct args as [t s e]. pose proof Hwf as (Ha & Hab & Hb).
  cbn [text selectionStart selectionEnd] in Ha, Hab, Hb |- *.
  assert (Hwrap : forall b a p, p <> [] ->
            resultStart (wrapSelection b a p (mkArgs t s e))
            < resultEnd (wrapSelection b a p (mkArgs t s e))).
  { intros b a p Hp. rewrite wrapSelection_shape by lia.
    cbn [resultStart resultEnd].
    pose proof (contentOf_nonempty t p s e Hp). lia. }
  assert (Hpre : forall p ph, ~ In LF p ->
            resultStart (prefixLines p ph (mkArgs t s e))
            = resultEnd (prefixLines p ph (mkArgs t s e))
            /\ from (resultEnd (prefixLines p ph (mkArgs t s e)))
                 (value (prefixLines p ph (mkArgs t s e)))
               = from e t).
  { intros p ph Hp.
    destruct (prefixLines_all_lines_facts p ph t s e Hwf Hp) as (_ & _ & _ & H).
    exact H. }
  assert (Hhead : resultStart (headingTransform 2 (mkArgs t s e))
                  < resultEnd (headingTransform 2 (mkArgs t s e))).
  { apply (headingTransform_content_trimmed_facts 2 t s e Hwf). }
  assert (Hcode : resultStart (codeTransform (mkArgs t s e))
                  < resultEnd (codeTransform (mkArgs t s e))).
  { rewrite codeTransform_shape by lia.
    assert (0 < JS.length (contentOf t s e (lit "code snippet")))
      by (apply contentOf_nonempty; discriminate).
    destruct (includes _ _ || _); cbn [resultStart resultEnd]; lia. }
  assert (Hdiv : resultStart (dividerTransform (mkArgs t s e))
                 = resultEnd (dividerTransform (mkArgs t s e))
                 /\ from (resultEnd (dividerTransform (mkArgs t s e)))
                      (value (dividerTransform (mkArgs t s e)))
                    = from e t).
  { rewrite dividerTransform_shape by lia.
    cbn [value resultStart resultEnd]. split; [reflexivity|].
    apply from_after_insertion; lia. }
  assert (Hno : forall x l, existsb (JS.eqb x) l = false -> ~ In x l).
  { intros x l Hx Hi.
    assert (existsb (JS.eqb x) l = true); [|congruence].
    apply existsb_exists. exists x. split; [assumption|apply eqb_refl]. }
  unfold formattingActions in Hin.
  repeat (destruct Hin as [<- | Hin]); try contradiction;
    cbn [transform id]; split; intros Hid;
    try (exfalso; revert Hid; apply Hno; reflexivity);
    auto.
  - apply Hwrap. discriminate.
  - apply Hwrap. discriminate.
  - apply Hpre. apply includes_LF_false. reflexivity.
  - apply Hpre. apply includes_LF_false. reflexivity.
Qed.

Lemma registry_selection_kind_witness :
  resultStart (dividerTransform (mkArgs (lit "AB") 1 1))
  = resultEnd (dividerTransform (mkArgs (lit "AB") 1 1))
  /\ from (resultEnd (dividerTransform (mkArgs (lit "AB") 1 1)))
       (value (dividerTransform (mkArgs (lit "AB") 1 1)))
     = from 1 (lit "AB").
Proof.
  apply (registry_selection_kind
           (mkAction (lit "divider") (lit "Divider") (lit "Horizontal rule")
              dividerTransform)
           (mkArgs (lit "AB") 1 1)).
  - do 6 right. left. reflexivity.
  - repeat split; concrete.
  - do 2 right. left. reflexivity.
Defined.

(** ** Looking actions up *)

(** X12. The ids of the registry are pairwise different, and looking up the
    id of a registered action finds that action: no entry hides another. *)
Theorem findAction_finds_each (action : FormattingAction) :
  In action formattingActions ->
  NoDup registeredIds /\ findAction (id action) = Some action.
Proof.
  intros Hin. split.
  - rewrite registeredIds_listing.
    repeat (constructor;
            [intros H; simpl in H;
             repeat (destruct H as [H|H]; [discriminate H|]); exact H|]).
    constructor.
  - unfold formattingActions in Hin.
    repeat (destruct Hin as [<- | Hin]); try contradiction; reflexivity.
Qed.

Lemma findAction_finds_each_witness :
  findAction (lit "code")
  = Some (mkAction (lit "code") (lit "Code")
            (lit "Inline or fenced code (" ++ CMD ++ lit "/Ctrl + E)")
            codeTransform).
Proof.
  apply (findAction_finds_each
           (mkAction (lit "code") (lit "Code")
              (lit "Inline or fenced code (" ++ CMD ++ lit "/Ctrl + E)")
              codeTransform)).
  do 4 right. left. reflexivity.
Defined.

(** ** The editor: actions, keys and buttons *)

Lemma upTo_all (t : jsstring) : upTo (JS.length t) t = t.
Proof. unfold upTo, JS.length. rewrite Nat2Z.id. apply firstn_all. Qed.

Lemma from_all (t : jsstring) : from (JS.length t) t = [].
Proof. unfold from, JS.length. rewrite Nat2Z.id. apply skipn_all. Qed.

(** The request [applyAction] builds from a consistent editor is well
    formed. *)
Lemma applyAction_request_wellFormed (st : Editor) :
  textareaInDraft st ->
  wellFormed
    (mkArgs (draft st)
       (match textareaRef st with
        | Some ta => taSelectionStart ta
        | None => JS.length (draft st)
        end)
       (match textareaRef st with
        | Some ta => taSelectionEnd ta
        | None => JS.length (draft st)
        end)).
Proof.
  unfold textareaInDraft, wellFormed.
  cbn [text selectionStart selectionEnd].
  pose proof (length_nonneg (draft st)).
  destruct (textareaRef st); intros; lia.
Qed.

Lemma applyAction_pending (action : FormattingAction) (st : Editor) :
  In action formattingActions -> textareaInDraft st ->
  pendingInDraft (applyAction action st).
Proof.
  intros Hin Hta. unfold pendingInDraft, applyAction.
  cbn [nextSelection draft].
  apply (registry_wellBehaved action Hin).
  now apply applyAction_request_wellFormed.
Qed.

(** X13. Before the textarea exists, an action works at the end of the
    draft: for every registered action the new draft is the old one with
    something appended, and the pending selection is a range of the new
    draft. *)
Theorem applyAction_without_textarea
    (action : FormattingAction) (st : Editor) :
  In action formattingActions ->
  textareaRef st = None ->
  (exists appended,
     draft (applyAction action st) = draft st ++ appended)
  /\ pendingInDraft (applyAction action st).
Proof.
  intros Hin Hnone. split.
  - unfold applyAction. rewrite Hnone. cbn [draft].
    assert (W : wellFormed
                  (mkArgs (draft st) (JS.length (draft st))
                     (JS.length (draft st)))).
    { pose proof (length_nonneg (draft st)). repeat split; simpl; lia. }
    destruct (registry_wellBehaved action Hin _ W) as (_ & middle & V).
    cbn [text selectionStart selectionEnd] in V.
    rewrite upTo_all, from_all, app_nil_r in V. now exists middle.
  - apply applyAction_pending; [assumption|].
    unfold textareaInDraft. now rewrite Hnone.
Qed.

Lemma applyAction_without_textarea_witness :
  exists appended,
    draft (applyAction
             (mkAction (lit "divider") (lit "Divider") (lit "Horizontal rule")
                dividerTransform)
             (mkEditor (lit "note") None None))
    = lit "note" ++ appended.
Proof.
  apply (applyAction_without_textarea
           (mkAction (lit "divider") (lit "Divider") (lit "Horizontal rule")
              dividerTransform)
           (mkEditor (lit "note") None None)).
  - do 6 right. left. reflexivity.
  - reflexivity.
Defined.

Lemma handleKeyDown_tab_facts
    (toLowerCase : jsstring -> jsstring) (event : KeyEvent) (st : Editor) :
  key event = lit "Tab" ->
  textareaInDraft st ->
  handleKeyDown toLowerCase event st
  = (mkEditor
       (upTo (insertionPoint st) (draft st) ++ lit "  "
          ++ from (insertionPoint st) (draft st))
       (textareaRef st)
       (Some (insertionPoint st + 2, insertionPoint st + 2)),
     true)
  /\ JS.length (draft (fst (handleKeyDown toLowerCase event st)))
     = JS.length (draft st) + 2
  /\ pendingInDraft (fst (handleKeyDown toLowerCase event st)).
Proof.
  intros Hkey Hta.
  assert (Hpos : 0 <= insertionPoint st <= JS.length (draft st)).
  { unfold insertionPoint, textareaInDraft in *.
    pose proof (length_nonneg (draft st)).
    destruct (textareaRef st); lia. }
  assert (E : handleKeyDown toLowerCase event st
              = (mkEditor
                   (upTo (insertionPoint st) (draft st) ++ lit "  "
                      ++ from (insertionPoint st) (draft st))
                   (textareaRef st)
                   (Some (insertionPoint st + 2, insertionPoint st + 2)),
                 true)).
  { unfold handleKeyDown. rewrite Hkey.
    replace (JS.eqb (lit "Tab") (lit "Tab")) with true by reflexivity.
    fold (insertionPoint st).
    now rewrite slice_prefix, sliceFrom_suffix by lia. }
  rewrite E. cbn [fst draft]. split; [reflexivity|].
  pose proof (length_upTo (draft st) (insertionPoint st) Hpos) as Lu.
  pose proof (length_from (draft st) (insertionPoint st) Hpos) as Lf.
  split.
  - rewrite !length_app, Lu, Lf. change (JS.length (lit "  ")) with 2. lia.
  - unfold pendingInDraft. cbn [nextSelection draft].
    rewrite !length_app, Lu, Lf. change (JS.length (lit "  ")) with 2. lia.
Qed.

(** X14. The Tab key, with or without modifiers, inserts two spaces at the
    start of the textarea's selection and puts the caret after them. It
    consults neither the end of the selection nor the selected text: nothing
    is removed, and the draft grows by exactly two code units. The default
    action of the key is prevented. *)
Theorem handleKeyDown_tab
    (toLowerCase : jsstring -> jsstring) (event : KeyEvent) (st : Editor) :
  key event = lit "Tab" ->
  textareaInDraft st ->
  handleKeyDown toLowerCase event st
  = (mkEditor
       (upTo (insertionPoint st) (draft st) ++ lit "  "
          ++ from (insertionPoint st) (draft st))
       (textareaRef st)
       (Some (insertionPoint st + 2, insertionPoint st + 2)),
     true)
  /\ JS.length (draft (fst (handleKeyDown toLowerCase event st)))
     = JS.length (draft st) + 2
  /\ pendingInDraft (fst (handleKeyDown toLowerCase event st)).
Proof. exact (handleKeyDown_tab_facts toLowerCase event st). Qed.

Lemma handleKeyDown_tab_witness :
  handleKeyDown (fun k => k) (mkKeyEvent (lit "Tab") false true)
    (mkEditor (lit "abcd") (Some (mkTextarea 1 3)) None)
  = (mkEditor (lit "a  bcd") (Some (mkTextarea 1 3)) (Some (3, 3)), true).
Proof.
  apply (handleKeyDown_tab (fun k => k) (mkKeyEvent (lit "Tab") false true)
           (mkEditor (lit "abcd") (Some (mkTextarea 1 3)) None)).
  - reflexivity.
  - repeat split; concrete.
Defined.

(** X15. The key handler prevents the default action of a key exactly for
    Tab and for Ctrl or Meta with a key that lower-cases to [b], [i], [e] or
    [2], which run bold, italic, code and heading. Every other key leaves
    the editor as it was. *)
Theorem handleKeyDown_handled
    (toLowerCase : jsstring -> jsstring) (event : KeyEvent) (st : Editor) :
  (snd (handleKeyDown toLowerCase event st) = true
   <-> key event = lit "Tab"
       \/ (metaKey event || ctrlKey event = true
           /\ In (toLowerCase (key event))
                [lit "b"; lit "i"; lit "e"; lit "2"]))
  /\ (snd (handleKeyDown toLowerCase event st) = false ->
      fst (handleKeyDown toLowerCase event st) = st)
  /\ (key event <> lit "Tab" -> metaKey event || ctrlKey event = true ->
      forall name k,
        In (name, k)
          [(lit "bold", lit "b"); (lit "italic", lit "i");
           (lit "code", lit "e"); (lit "heading", lit "2")] ->
        toLowerCase (key event) = k ->
        fst (handleKeyDown toLowerCase event st) = runAction name st).
Proof.
  unfold handleKeyDown.
  destruct (JS.eqb (key event) (lit "Tab")) eqn:Tab.
  { apply eqb_eq in Tab. cbn [fst snd]. split; [|split].
    - split; auto.
    - discriminate.
    - congruence. }
  apply eqb_neq in Tab.
  destruct (metaKey event || ctrlKey event) eqn:Mod; cbn [negb].
  2:{ cbn [fst snd]. split; [|split]; try discriminate; auto.
      split; [discriminate|]. intros [H|[H _]]; [contradiction|discriminate]. }
  destruct (JS.eqb (toLowerCase (key event)) (lit "b")) eqn:B;
    [|destruct (JS.eqb (toLowerCase (key event)) (lit "i")) eqn:I;
      [|destruct (JS.eqb (toLowerCase (key event)) (lit "e")) eqn:E;
        [|destruct (JS.eqb (toLowerCase (key event)) (lit "2")) eqn:D]]];
    cbn [fst snd];
    repeat match goal with
           | H : JS.eqb _ _ = true |- _ => apply eqb_eq in H
           | H : JS.eqb _ _ = false |- _ => apply eqb_neq in H
           end.
  all: split; [|split]; try discriminate; try reflexivity.
  all: try (split; [intros _; right; split; [reflexivity|];
                    simpl; rewrite ?B, ?I, ?E, ?D; tauto
                   |reflexivity]).
  all: try (intros _ _ name k Hin Hk; simpl in Hin;
            repeat (destruct Hin as [Hin|Hin];
                    [injection Hin as <- <-|]);
            try contradiction; try reflexivity;
            rewrite Hk in *; try congruence; discriminate).
  split; [discriminate|]. intros [H|[_ H]]; [contradiction|].
  simpl in H. intuition congruence.
Qed.

(** ** Sequences of commands *)

Lemma applyAction_requestOf (action : FormattingAction) (st : Editor) :
  applyAction action st
  = mkEditor (value (transform action (requestOf st))) (textareaRef st)
      (Some (resultStart (transform action (requestOf st)),
             resultEnd (transform action (requestOf st)))).
Proof. reflexivity. Qed.



Section Commands.

Variable toLowerCase : jsstring -> jsstring.




Variable setSelectionRange : jsstring -> Z -> Z -> Textarea.
Hypothesis Hhonours : honoursRanges setSelectionRange.



End Commands.


(** ** The stored draft *)

Lemma saveEffect_first (d : jsstring) (state : SaveState) (store : Storage) :
  saveEffect (mkSession d state true true store)
  = mkSession d state true false store.
Proof. reflexivity. Qed.

Lemma saveEffect_later (d : jsstring) (state : SaveState) (store : Storage) :
  saveEffect (mkSession d state true false store)
  = mkSession d saving true false (setItem store STORAGE_KEY d).
Proof. reflexivity. Qed.

(** What loading the page computes, by what is stored. *)
Lemma mount_cases (store : Storage) :
  mount store
  = match store STORAGE_KEY with
    | Some (c :: rest) =>
        if JS.eqb (c :: rest) STARTER_TEMPLATE
        then mkSession (c :: rest) saved true false store
        else mkSession (c :: rest) saving true false
               (setItem store STORAGE_KEY (c :: rest))
    | _ => mkSession STARTER_TEMPLATE saved true false store
    end.
Proof.
  unfold mount, hydrateEffect, initialSession, getItem.
  cbn [storage sessionDraft saveState skipInitialSave hydrated].
  destruct (store STORAGE_KEY) as [[|c rest]|];
    rewrite saveEffect_first; cbn [sessionDraft];
    try (now rewrite eqb_refl).
  destruct (JS.eqb (c :: rest) STARTER_TEMPLATE); [reflexivity|].
  apply saveEffect_later.
Qed.

(** The session after loading: the stored draft when there is one that is
    not empty, the template otherwise; both refs are set for the saves to
    come. *)
Lemma mount_session (store : Storage) :
  sessionDraft (mount store)
  = match store STORAGE_KEY with
    | Some (c :: rest) => c :: rest
    | _ => STARTER_TEMPLATE
    end
  /\ hydrated (mount store) = true
  /\ skipInitialSave (mount store) = false.
Proof.
  rewrite mount_cases.
  destruct (store STORAGE_KEY) as [[|c rest]|]; try (repeat split; fail).
  destruct (JS.eqb (c :: rest) STARTER_TEMPLATE); repeat split.
Qed.

Lemma mount_storage (store : Storage) (k : jsstring) :
  storage (mount store) k = store k.
Proof.
  rewrite mount_cases.
  destruct (store STORAGE_KEY) as [[|c rest]|] eqn:G; try reflexivity.
  destruct (JS.eqb (c :: rest) STARTER_TEMPLATE); [reflexivity|].
  cbn [storage]. unfold setItem.
  destruct (JS.eqb k STORAGE_KEY) eqn:K; [|reflexivity].
  apply eqb_eq in K. subst k. symmetry. exact G.
Qed.

Lemma mountStrict_cases (store : Storage) :
  mountStrict store
  = match store STORAGE_KEY with
    | Some (c :: rest) =>
        if JS.eqb (c :: rest) STARTER_TEMPLATE
        then mkSession STARTER_TEMPLATE saving true false
               (setItem store STORAGE_KEY STARTER_TEMPLATE)
        else mkSession (c :: rest) saving true false
               (setItem (setItem store STORAGE_KEY STARTER_TEMPLATE)
                  STORAGE_KEY (c :: rest))
    | _ => mkSession STARTER_TEMPLATE saving true false
             (setItem store STORAGE_KEY STARTER_TEMPLATE)
    end.
Proof.
  unfold mountStrict, hydrateEffect, initialSession, getItem.
  cbn [storage sessionDraft saveState skipInitialSave hydrated].
  rewrite saveEffect_first, saveEffect_later.
  destruct (store STORAGE_KEY) as [[|c rest]|]; unfold setDraft;
    cbn [storage sessionDraft saveState skipInitialSave hydrated];
    try (now rewrite eqb_refl).
  destruct (JS.eqb (c :: rest) STARTER_TEMPLATE); [reflexivity|].
  apply saveEffect_later.
Qed.

(** X17. Loading the page in the production build never changes what is
    stored, under any key: the first run of the save effect is skipped, so
    the template does not overwrite a stored draft, and the save after
    hydration writes back the value that was read. In the development build,
    where strict mode runs the effects of the first render twice, the second
    run of the save effect stores the template: there loading leaves every
    other key alone, and the draft's key ends up holding the draft shown
    (the template, written also when nothing was stored). In both builds the
    draft shown is the stored one when there is one that is not empty, and
    the template otherwise. *)
Theorem mount_keeps_storage (store : Storage) (k : jsstring) :
  storage (mount store) k = store k
  /\ sessionDraft (mount store)
     = match store STORAGE_KEY with
       | Some (c :: rest) => c :: rest
       | _ => STARTER_TEMPLATE
       end
  /\ (k <> STORAGE_KEY -> storage (mountStrict store) k = store k)
  /\ storage (mountStrict store) STORAGE_KEY
     = Some (sessionDraft (mountStrict store))
  /\ sessionDraft (mountStrict store) = sessionDraft (mount store)
  /\ (match store STORAGE_KEY with
      | Some (c :: rest) => False
      | _ => True
      end ->
      storage (mountStrict store) STORAGE_KEY = Some STARTER_TEMPLATE).
Proof.
  split; [apply mount_storage|]. split; [apply mount_session|].
  assert (Hset : forall st v, setItem st STORAGE_KEY v STORAGE_KEY = Some v).
  { intros st v. unfold setItem. now rewrite eqb_refl. }
  assert (Hother : forall st v, k <> STORAGE_KEY ->
            setItem st STORAGE_KEY v k = st k).
  { intros st v Hk. unfold setItem.
    destruct (JS.eqb k STORAGE_KEY) eqn:K;
      [apply eqb_eq in K; contradiction|reflexivity]. }
  rewrite mountStrict_cases, mount_cases.
  destruct (store STORAGE_KEY) as [[|c rest]|] eqn:G;
    [|destruct (JS.eqb (c :: rest) STARTER_TEMPLATE) eqn:T|];
    cbn [storage sessionDraft].
  - split; [intros Hk; now apply Hother|]. split; [apply Hset|].
    split; [reflexivity|]. intros _. apply Hset.
  - apply eqb_eq in T.
    split; [intros Hk; now apply Hother|]. split; [apply Hset|].
    split; [now rewrite T|]. contradiction.
  - split; [intros Hk; now rewrite !Hother|]. split; [apply Hset|].
    split; [reflexivity|]. contradiction.
  - split; [intros Hk; now apply Hother|]. split; [apply Hset|].
    split; [reflexivity|]. intros _. apply Hset.
Qed.

(** X18. A draft survives a reload unless it is empty: after the page is
    loaded and the draft set to [d], loading the page again from the storage
    left behind shows [d], or the template when [d] is empty (an empty
    stored draft counts as no draft). The save touches no other key. *)
Theorem draft_survives_reload (store : Storage) (d : jsstring) :
  sessionDraft (mount (storage (setDraft d (mount store))))
  = orElse d STARTER_TEMPLATE
  /\ (forall k, k <> STORAGE_KEY ->
        storage (setDraft d (mount store)) k = store k).
Proof.
  destruct (mount_session store) as (Hd & Hh & Hs).
  assert (Hsaved : d <> sessionDraft (mount store) ->
                   storage (setDraft d (mount store))
                   = setItem (storage (mount store)) STORAGE_KEY d).
  { intros Hne. unfold setDraft.
    destruct (JS.eqb d (sessionDraft (mount store))) eqn:E;
      [apply eqb_eq in E; contradiction|].
    unfold saveEffect.
    cbn [storage sessionDraft saveState skipInitialSave hydrated].
    now rewrite Hh, Hs. }
  assert (Hsame : d = sessionDraft (mount store) ->
                  setDraft d (mount store) = mount store).
  { intros ->. unfold setDraft. now rewrite eqb_refl. }
  split.
  - destruct (mount_session (storage (setDraft d (mount store))))
      as (Hd' & _).
    rewrite Hd'. clear Hd'.
    destruct (JS.eqb d (sessionDraft (mount store))) eqn:E.
    + apply eqb_eq in E. rewrite (Hsame E), mount_storage, E, Hd.
      destruct (store STORAGE_KEY) as [[|c rest]|]; try reflexivity;
        now destruct STARTER_TEMPLATE.
    + apply eqb_neq in E. rewrite (Hsaved E). unfold setItem.
      rewrite eqb_refl. now destruct d.
  - intros k Hk.
    destruct (JS.eqb d (sessionDraft (mount store))) eqn:E.
    + apply eqb_eq in E. rewrite (Hsame E). apply mount_storage.
    + apply eqb_neq in E. rewrite (Hsaved E). unfold setItem.
      destruct (JS.eqb k STORAGE_KEY) eqn:K;
        [apply eqb_eq in K; contradiction|].
      apply mount_storage.
Qed.

(** ** Blocks stand on lines of their own *)

Lemma endsWith_LF_inv (x : jsstring) :
  endsWith x [LF] = true -> exists x', x = x' ++ [LF].
Proof.
  unfold endsWith. simpl List.length. intros H.
  apply andb_true_iff in H as [_ H]. apply eqb_eq in H.
  exists (firstn (List.length x - 1) x).
  rewrite <- H. symmetry. apply firstn_skipn.
Qed.

Lemma startsWith_LF_inv (x : jsstring) :
  startsWith x [LF] = true -> exists x', x = LF :: x'.
Proof.
  unfold startsWith. simpl List.length. intros H. apply eqb_eq in H.
  destruct x as [|c x]; [discriminate H|].
  injection H as ->. now exists x.
Qed.

(** A block between its two separators has a blank line on each side. *)
Lemma block_surrounded (t middle : jsstring) (s e : Z) :
  0 <= s -> s <= e -> e <= JS.length t ->
  exists pre post,
    upTo s t ++ (blockLeadingSep t s ++ middle ++ blockTrailingSep t e)
      ++ from e t
    = pre ++ [LF; LF] ++ middle ++ [LF; LF] ++ post.
Proof.
  intros Ha Hab Hb.
  assert (Hlead : exists pre,
            upTo s t ++ blockLeadingSep t s = pre ++ [LF; LF]).
  { unfold blockLeadingSep.
    destruct (isLF (unitAt t (s - 1))) eqn:L.
    - rewrite <- endsWith_LF_upTo in L by lia.
      destruct (endsWith_LF_inv _ L) as (u' & ->).
      exists u'. now rewrite <- app_assoc.
    - now exists (upTo s t). }
  assert (Htrail : exists post,
            blockTrailingSep t e ++ from e t = [LF; LF] ++ post).
  { unfold blockTrailingSep.
    destruct (isLF (unitAt t e)) eqn:L.
    - rewrite <- startsWith_LF_from in L by lia.
      destruct (startsWith_LF_inv _ L) as (f' & ->). now exists f'.
    - now exists (from e t). }
  destruct Hlead as (pre & Ep). destruct Htrail as (post & Eq).
  exists pre, post.
  rewrite <- !app_assoc, (app_assoc (upTo s t)), Ep.
  rewrite <- !app_assoc. do 2 f_equal.
  change ([LF; LF] ++ middle ++ [LF; LF] ++ post)
    with ([LF; LF] ++ middle ++ ([LF; LF] ++ post)).
  now rewrite <- Eq.
Qed.

(** X19. On every well-formed request the divider's [---] has a blank line
    before it and a blank line after it in the result, wherever the caret
    was; so has the fenced block the code transform makes. *)
Theorem blocks_between_blank_lines (args : TransformArgs) :
  wellFormed args ->
  (exists pre post,
     value (dividerTransform args)
     = pre ++ [LF; LF] ++ lit "---" ++ [LF; LF] ++ post)
  /\ (In LF (codeContent args) \/ selectionStart args = selectionEnd args ->
      exists pre post,
        value (codeTransform args)
        = pre ++ [LF; LF]
            ++ (lit "```" ++ [LF] ++ codeContent args ++ [LF] ++ lit "```")
            ++ [LF; LF] ++ post).
Proof.
  intros Hwf. pose proof Hwf as (Ha & Hab & Hb).
  destruct args as [t s e].
  cbn [text selectionStart selectionEnd] in Ha, Hab, Hb |- *.
  split.
  - rewrite dividerTransform_shape by lia. cbn [value].
    apply block_surrounded; lia.
  - intros Hmode. unfold codeContent in *.
    cbn [text selectionStart selectionEnd] in *.
    rewrite codeTransform_shape by lia.
    assert (M : includes (between s e t) [LF] || (s =? e) = true).
    { rewrite <- codeTransform_branch by lia.
      destruct Hmode as [H| ->].
      - apply includes_LF in H. now rewrite H.
      - unfold between. rewrite Nat.sub_diag. apply orb_true_r. }
    rewrite M. cbn [value].
    destruct (block_surrounded t
                (lit "```" ++ [LF] ++ contentOf t s e (lit "code snippet")
                   ++ [LF] ++ lit "```") s e Ha Hab Hb) as (pre & post & E).
    exists pre, post. rewrite <- E. now rewrite <- !app_assoc.
Qed.

Lemma blocks_between_blank_lines_witness :
  exists pre post,
    value (dividerTransform (mkArgs (lit "A" ++ [LF] ++ lit "B") 2 2))
    = pre ++ [LF; LF] ++ lit "---" ++ [LF; LF] ++ post.
Proof.
  apply (blocks_between_blank_lines (mkArgs (lit "A" ++ [LF] ++ lit "B") 2 2)).
  repeat split; concrete.
Defined.

(** X20. On every well-formed request the heading's marker starts a line of
    the result (it stands at the start of the document or right after a
    newline), and the heading text is followed by a newline or by the end of
    the document. *)
Theorem headingTransform_on_own_line
    (level : nat) (t : jsstring) (s e : Z) :
  wellFormed (mkArgs t s e) ->
  exists pre post,
    value (headingTransform level (mkArgs t s e))
    = pre ++ (JS.repeat (lit "#") level ++ lit " ")
        ++ headingContent t s e ++ post
    /\ (pre = [] \/ exists p, pre = p ++ [LF])
    /\ (post = [] \/ exists q, post = LF :: q).
Proof.
  intros (Ha & Hab & Hb).
  cbn [text selectionStart selectionEnd] in Ha, Hab, Hb.
  destruct (headingTransform_reads_content level t s e Ha Hab Hb) as (V & _).
  exists (upTo s t ++ headingLeadingSep t s),
    (headingTrailingSep t e ++ from e t).
  split; [rewrite V; now rewrite <- !app_assoc|]. split.
  - unfold headingLeadingSep.
    destruct ((s =? 0) || isLF (unitAt t (s - 1))) eqn:D.
    + rewrite app_nil_r. apply orb_true_iff in D as [D|D].
      * apply Z.eqb_eq in D. subst s. now left.
      * rewrite <- endsWith_LF_upTo in D by lia.
        right. now apply endsWith_LF_inv.
    + right. exists (upTo s t ++ [LF]). now rewrite <- app_assoc.
  - unfold headingTrailingSep.
    destruct ((e =? JS.length t) || isLF (unitAt t e)) eqn:D.
    + cbn [app]. apply orb_true_iff in D as [D|D].
      * apply Z.eqb_eq in D. left. apply length_zero_nil.
        rewrite length_from by lia. lia.
      * rewrite <- startsWith_LF_from in D by lia.
        right. now apply startsWith_LF_inv.
    + right. now exists (LF :: from e t).
Qed.

Lemma headingTransform_on_own_line_witness :
  exists pre post,
    value (headingTransform 2 (mkArgs (lit "one two") 4 7))
    = pre ++ (JS.repeat (lit "#") 2 ++ lit " ")
        ++ headingContent (lit "one two") 4 7 ++ post
    /\ (pre = [] \/ exists p, pre = p ++ [LF])
    /\ (post = [] \/ exists q, post = LF :: q).
Proof.
  apply (headingTransform_on_own_line 2 (lit "one two") 4 7).
  repeat split; concrete.
Defined.

(** The same round trip in the development build. *)
Lemma draft_survives_reload_strict (store : Storage) (d : jsstring) :
  sessionDraft (mountStrict (storage (setDraft d (mountStrict store))))
  = orElse d STARTER_TEMPLATE.
Proof.
  assert (Hshown : forall st,
            sessionDraft (mountStrict st)
            = match st STORAGE_KEY with
              | Some (c :: rest) => c :: rest
              | _ => STARTER_TEMPLATE
              end).
  { intros st. rewrite mountStrict_cases.
    destruct (st STORAGE_KEY) as [[|c rest]|]; try reflexivity.
    destruct (JS.eqb (c :: rest) STARTER_TEMPLATE) eqn:T; [|reflexivity].
    apply eqb_eq in T. cbn [sessionDraft]. now rewrite T. }
  assert (Hflags : hydrated (mountStrict store) = true
                   /\ skipInitialSave (mountStrict store) = false
                   /\ storage (mountStrict store) STORAGE_KEY
                      = Some (sessionDraft (mountStrict store))).
  { rewrite mountStrict_cases.
    destruct (store STORAGE_KEY) as [[|c rest]|];
      [|destruct (JS.eqb (c :: rest) STARTER_TEMPLATE)|];
      cbn [hydrated skipInitialSave storage sessionDraft]; unfold setItem;
      rewrite eqb_refl; repeat split. }
  destruct Hflags as (Hh & Hs & Hk).
  assert (Hstored : storage (setDraft d (mountStrict store)) STORAGE_KEY
                    = Some d).
  { unfold setDraft.
    destruct (JS.eqb d (sessionDraft (mountStrict store))) eqn:E.
    - apply eqb_eq in E. now rewrite Hk, E.
    - unfold saveEffect.
      cbn [storage sessionDraft saveState skipInitialSave hydrated].
      rewrite Hh, Hs. cbn [negb storage]. unfold setItem.
      now rewrite eqb_refl. }
  rewrite Hshown, Hstored. now destruct d.
Qed.
